(** * Incremental Reading: embedded storage subsystem

    A shallow embedding of the storage layer of the Obsidian plugin:
    - [SQLiteRepository] (repository.ts): value coercion, result
      formatting, raw execution, query / mutate, and the save / reload
      protocol with its self-write guard;
    - [Query] (query-composer/classes/Query.ts): the condition builder.

    JavaScript values are modelled by inductive types, row objects by
    their own properties (a [gmap string _]) and their prototype, shared
    mutable arrays by an explicit heap, and asynchronous methods by a
    state-and-exception monad whose state is the repository together with
    the part of the host it talks to. *)

From stdpp Require Import base option list strings gmap pretty.
From Stdlib Require Import ZArith Lia Ascii.

Open Scope string_scope.
Open Scope list_scope.

(* ================================================================= *)
(** ** Values crossing the binding layer *)

Module Values.

(** [Primitive] of lib/utility-types: the host values accepted as bind
    parameters.  A symbol carries its optional description. *)
Inductive Primitive : Type :=
| PBoolean (b : bool)
| PSymbol (description : option string)
| PUndefined
| PString (s : string)
| PNumber (n : Z)
| PNull.

(** [SqlValue] of sql.js: [number | string | Uint8Array | null]. *)
Inductive SqlValue : Type :=
| SqlNumber (n : Z)
| SqlString (s : string)
| SqlBlob (bytes : list N)
| SqlNull.

#[export] Instance Primitive_eq_dec : EqDecision Primitive.
Proof. solve_decision. Defined.

#[export] Instance SqlValue_eq_dec : EqDecision SqlValue.
Proof. solve_decision. Defined.

(** [Number(b)] for a boolean [b]. *)
Definition Number_of_boolean (b : bool) : Z := if b then 1%Z else 0%Z.

(** [Symbol.prototype.toString]. *)
Definition Symbol_toString (description : option string) : string :=
  "Symbol(" +:+ default "" description +:+ ")".

(** The callback of [coerceParams]: the [switch (typeof param)]. *)
Definition coerceParam (param : Primitive) : SqlValue :=
  match param with
  | PBoolean b => SqlNumber (Number_of_boolean b)       (* case 'boolean' *)
  | PSymbol d => SqlString (Symbol_toString d)          (* case 'symbol' *)
  | PUndefined => SqlNull                               (* case 'undefined' *)
  | PString s => SqlString s                            (* case 'string' *)
  | PNumber n => SqlNumber n                            (* case 'number' *)
  | PNull => SqlNull                                    (* case 'object' *)
  end.

(** [coerceParams]: [params.map(...)]. *)
Definition coerceParams (params : list Primitive) : list SqlValue :=
  map coerceParam params.

(** The pass-through cases, read as values of the target type. *)
Definition passed_through (param : Primitive) : option SqlValue :=
  match param with
  | PString s => Some (SqlString s)
  | PNumber n => Some (SqlNumber n)
  | PNull => Some SqlNull
  | _ => None
  end.

(** The coercion rules as the specification words them, one constructor
    per rule. *)
Inductive coercion_rule : Primitive → SqlValue → Prop :=
| rule_true : coercion_rule (PBoolean true) (SqlNumber 1)
| rule_false : coercion_rule (PBoolean false) (SqlNumber 0)
| rule_symbol d : coercion_rule (PSymbol d) (SqlString (Symbol_toString d))
| rule_undefined : coercion_rule PUndefined SqlNull
| rule_unchanged p v : passed_through p = Some v → coercion_rule p v.

End Values.

(* ================================================================= *)
(** ** Effects: mutable state and exceptions *)

Module Eff.

(** A thrown JavaScript [Error], identified by its message. *)
Inductive Error : Type := JsError (message : string).

Inductive Outcome (A : Type) : Type :=
| Returned (a : A)
| Thrown (e : Error).
Arguments Returned {A} a.
Arguments Thrown {A} e.

(** A computation over a store [S]: it ends by returning or by throwing,
    and in both cases leaves a store behind. *)
Definition Task (S A : Type) : Type := S → Outcome A * S.

Definition ret {S A} (a : A) : Task S A := λ s, (Returned a, s).

Definition throw {S A} (e : Error) : Task S A := λ s, (Thrown e, s).

Definition bind {S A B} (m : Task S A) (k : A → Task S B) : Task S B :=
  λ s, match m s with
       | (Returned a, s') => k a s'
       | (Thrown e, s') => (Thrown e, s')
       end.

(** [try { m } catch (error) { handler error }]. *)
Definition try_catch {S A} (m : Task S A) (handler : Error → Task S A)
    : Task S A :=
  λ s, match m s with
       | (Returned a, s') => (Returned a, s')
       | (Thrown e, s') => handler e s'
       end.

Definition get {S} : Task S S := λ s, (Returned s, s).

Definition modify {S} (f : S → S) : Task S unit := λ s, (Returned tt, f s).

(** A result computed without a store, continued as a computation. *)
Definition of_outcome {S A} (o : Outcome A) : Task S A := λ s, (o, s).

Definition outcome {S A} (r : Outcome A * S) : Outcome A := fst r.
Definition store {S A} (r : Outcome A * S) : S := snd r.

Module Notations.
Notation "'do' x <~ m ;; k" := (bind m (λ x, k))
  (at level 10, x name, m at level 99, k at level 200, only parsing).
End Notations.

End Eff.

(* ================================================================= *)
(** ** Result formatter *)

Module Formatter.
Import Values Eff.

(** [QueryExecResult] of sql.js. *)
Record QueryExecResult : Type := mkResult {
  columns : list string;
  values : list (list SqlValue);
}.

(** What a row object can have as its prototype.  It starts as the
    object literal [{}] with [Object.prototype]; an assignment to the key
    [__proto__] goes to the setter inherited from there, which replaces
    the prototype when the value is [null] or an object.  The only cells
    that are objects are the [Uint8Array]s of BLOB columns. *)
Inductive Prototype : Type :=
| ObjectPrototype
| NullPrototype
| TypedArrayPrototype (bytes : list N).

(** A formatted row: a JS object with its own properties, keyed by
    column name, and its prototype. *)
Record JsObject : Type := mkObject {
  own : gmap string SqlValue;
  prototype : Prototype;
}.

Abbreviation Row := JsObject.

(** What an assignment to a key that is not an own property does when
    the prototype is a typed array: create an own property (the key is
    absent from the chain or a writable data property there), nothing at
    all (a numeric index outside the array), or fail (an accessor without
    setter such as [length], or a read-only property). *)
Inductive Inherited : Type := CreatesOwn | Ignored | Rejected.

(** The part of the JavaScript runtime the formatter depends on: how a
    key resolves on the prototype chain of a [Uint8Array].  The key
    "undefined" is no numeric index and no property of that chain. *)
Class JsRuntime : Type := {
  typed_array_key : list N → string → Inherited;
  typed_array_key_undefined bytes :
    typed_array_key bytes "undefined" = CreatesOwn;
}.

(** The computed key [[columns[i]]]: an index past the end of [columns]
    reads [undefined], which as a property key is the string "undefined". *)
Definition column_key (cols : list string) (i : nat) : string :=
  match cols !! i with
  | Some c => c
  | None => "undefined"
  end.

(** The object literal [{}]. *)
Definition empty_object : JsObject := mkObject ∅ ObjectPrototype.

(** Creating or overwriting an own data property. *)
Definition define_own (o : JsObject) (key : string) (v : SqlValue) : JsObject :=
  mkObject (<[key := v]> (own o)) (prototype o).

(** The setter of [Object.prototype.__proto__] called on [o]: a value
    that is neither [null] nor an object is ignored. *)
Definition proto_setter (o : JsObject) (v : SqlValue) : JsObject :=
  match v with
  | SqlNull => mkObject (own o) NullPrototype
  | SqlBlob bytes => mkObject (own o) (TypedArrayPrototype bytes)
  | SqlNumber _ | SqlString _ => o
  end.

Definition not_assignable : Error :=
  JsError "TypeError: Cannot assign to read only property".

Section WithRuntime.
Context {R : JsRuntime}.

(** The assignment [Object.assign] performs for one key,
    [Set(o, key, v, true)]: an own property is overwritten; otherwise the
    prototype chain decides. *)
Definition set_property (o : JsObject) (key : string) (v : SqlValue)
    : Outcome JsObject :=
  match own o !! key with
  | Some _ => Returned (define_own o key v)
  | None =>
      match prototype o with
      | NullPrototype => Returned (define_own o key v)
      | ObjectPrototype =>
          if decide (key = "__proto__") then Returned (proto_setter o v)
          else Returned (define_own o key v)
      | TypedArrayPrototype bytes =>
          if decide (key = "__proto__") then Returned (proto_setter o v)
          else match typed_array_key bytes key with
               | CreatesOwn => Returned (define_own o key v)
               | Ignored => Returned o
               | Rejected => Thrown not_assignable
               end
      end
  end.

(** [Array.prototype.reduce] with the element index, from index [i]; an
    exception of the callback ends it. *)
Fixpoint reduce_from {A B : Type} (f : B → A → nat → Outcome B)
    (l : list A) (i : nat) (acc : B) : Outcome B :=
  match l with
  | [] => Returned acc
  | x :: l' =>
      match f acc x i with
      | Returned acc' => reduce_from f l' (S i) acc'
      | Thrown e => Thrown e
      end
  end.

(** [Array.prototype.map] with a callback that may throw. *)
Fixpoint map_throwing {A B : Type} (f : A → Outcome B) (l : list A)
    : Outcome (list B) :=
  match l with
  | [] => Returned []
  | x :: l' =>
      match f x with
      | Returned y =>
          match map_throwing f l' with
          | Returned ys => Returned (y :: ys)
          | Thrown e => Thrown e
          end
      | Thrown e => Thrown e
      end
  end.

(** [Object.assign(acc, { [columns[i]]: cell })]: the source object has
    the one own property, which is assigned to [acc]. *)
Definition assign_cell (cols : list string) (acc : Row) (cell : SqlValue)
    (i : nat) : Outcome Row :=
  set_property acc (column_key cols i) cell.

Definition format_row (cols : list string) (row : list SqlValue)
    : Outcome Row :=
  reduce_from (assign_cell cols) row 0 empty_object.

(** [formatResult]. *)
Definition formatResult (result : QueryExecResult) : Outcome (list Row) :=
  map_throwing (format_row (columns result)) (values result).

End WithRuntime.

(** The own properties a row object ends with when every assignment
    creates or overwrites an own property. *)
Fixpoint own_after (cols : list string) (row : list SqlValue) (i : nat)
    (acc : gmap string SqlValue) : gmap string SqlValue :=
  match row with
  | [] => acc
  | cell :: row' => own_after cols row' (S i) (<[column_key cols i := cell]> acc)
  end.

End Formatter.

(* ================================================================= *)
(** ** Condition builder (Query.ts) *)

Module Builder.
Import Values Eff Eff.Notations.

Inductive Conjunction : Type := WHERE | AND | OR.

(** [QueryComparator]: the SQL operator texts. *)
Inductive QueryComparator : Type :=
| CmpEq | CmpNeq | CmpLt | CmpLte | CmpGt | CmpGte | CmpIn.

Definition comparator_text (c : QueryComparator) : string :=
  match c with
  | CmpEq => "="
  | CmpNeq => "<>"
  | CmpLt => "<"
  | CmpLte => "<="
  | CmpGt => ">"
  | CmpGte => ">="
  | CmpIn => "IN"
  end.

(** The array type [[string, ...[Conjunction, string][]]]: a leading
    condition followed by conjunction-tagged ones. *)
Record Conditions : Type := mkConditions {
  leading : string;
  chained : list (Conjunction * string);
}.

(** Arrays are JavaScript objects: they are passed by reference and
    mutated by [push].  [loc] is such a reference. *)
Definition loc := nat.

Record Heap : Type := mkHeap {
  param_arrays : gmap loc (list Primitive);
  condition_arrays : gmap loc Conditions;
  next_loc : loc;
}.

Definition read_params (params : loc) (h : Heap) : list Primitive :=
  default [] (param_arrays h !! params).

(** [params.push(v)]. *)
Definition push_param (params : loc) (v : Primitive) : Task Heap unit :=
  modify (λ h, mkHeap (<[params := read_params params h ++ [v]]> (param_arrays h))
                      (condition_arrays h) (next_loc h)).

(** The array literal [[condition]]: a new array. *)
Definition new_conditions (condition : string) : Task Heap loc :=
  λ h, (Returned (next_loc h),
        mkHeap (param_arrays h)
               (<[next_loc h := mkConditions condition []]> (condition_arrays h))
               (S (next_loc h))).

(** [conditions.push([conjunction, condition])]. *)
Definition push_condition (conditions : loc) (entry : Conjunction * string)
    : Task Heap unit :=
  modify (λ h, mkHeap (param_arrays h)
                      (alter (λ c, mkConditions (leading c) (chained c ++ [entry]))
                             conditions (condition_arrays h))
                      (next_loc h)).

(** The template literal [`${column} ${comparator} $${n}`]. *)
Definition condition_text (column : string) (comparator : QueryComparator)
    (n : nat) : string :=
  column +:+ " " +:+ comparator_text comparator +:+ " $" +:+ pretty n.

Definition where_twice : Error :=
  JsError "WHERE should not be called multiple times in one query".
Definition dangling_conjunction : Error :=
  JsError "AND or OR called without a preexisting WHERE; this shouldn't happen.".

(** The object returned by [createCondition]; its two methods close over
    [params] and the local variable [conditions]. *)
Record Combinator : Type := mkCombinator {
  comb_params : loc;
  comb_conditions : option loc;
}.

(** The object returned by [createConditions]; its seven methods close
    over the four arguments. *)
Record WhereConditions : Type := mkWhereConditions {
  wc_column : string;
  wc_conjunction : Conjunction;
  wc_params : loc;
  wc_conditions : option loc;
}.

(** [createCondition].  [conditions] is the parameter ([null] is [None]);
    the WHERE branch assigns the local variable, nothing else. *)
Definition createCondition (column : string) (conjunction : Conjunction)
    (params : loc) (conditions : option loc)
    (comparator : QueryComparator) (compareValue : Primitive)
    : Task Heap Combinator :=
  do h <~ get ;;
  let condition :=
    condition_text column comparator (length (read_params params h) + 1) in
  do conditions' <~
    match conjunction with
    | WHERE =>
        match conditions with
        | Some _ => throw where_twice
        | None => do l <~ new_conditions condition ;; ret (Some l)
        end
    | _ =>
        match conditions with
        | None => throw dangling_conjunction
        | Some l =>
            do _ <~ push_condition l (conjunction, condition) ;; ret (Some l)
        end
    end ;;
  do _ <~ push_param params compareValue ;;
  ret (mkCombinator params conditions').

(** [createConditions]: builds the comparator object, no effect yet. *)
Definition createConditions (column : string) (conjunction : Conjunction)
    (params : loc) (conditions : option loc) : WhereConditions :=
  mkWhereConditions column conjunction params conditions.

(** [createComparatorCondition(comparator)(compareValue)]. *)
Definition createComparatorCondition (wc : WhereConditions)
    (comparator : QueryComparator) (compareValue : Primitive)
    : Task Heap Combinator :=
  createCondition (wc_column wc) (wc_conjunction wc) (wc_params wc)
                  (wc_conditions wc) comparator compareValue.

Definition eq := λ wc, createComparatorCondition wc CmpEq.
Definition neq := λ wc, createComparatorCondition wc CmpNeq.
Definition lt := λ wc, createComparatorCondition wc CmpLt.
Definition lte := λ wc, createComparatorCondition wc CmpLte.
Definition gt := λ wc, createComparatorCondition wc CmpGt.
Definition gte := λ wc, createComparatorCondition wc CmpGte.
Definition in_ := λ wc, createComparatorCondition wc CmpIn.

(** The methods [and] and [or] of a combinator. *)
Definition and_ (cb : Combinator) (column : string) : WhereConditions :=
  createConditions column AND (comb_params cb) (comb_conditions cb).
Definition or_ (cb : Combinator) (column : string) : WhereConditions :=
  createConditions column OR (comb_params cb) (comb_conditions cb).

(** The condition array a combinator holds, read from the heap. *)
Definition conditions_of (cb : Combinator) (h : Heap) : option Conditions :=
  l ← comb_conditions cb; condition_arrays h !! l.

(** The method [where] of the object [updateQueryFactory(...).set(...)]
    returns: [createConditions(column, 'WHERE', params, conditions)], with
    the factory's [const conditions = null]. *)
Definition factory_where (params : loc) (column : string) : WhereConditions :=
  createConditions column WHERE params None.

(** The chain [where(c1).eq(v1).and(c2).eq(v2)] on the array [params]
    of such a factory. *)
Definition where_eq_and_eq (params : loc) (c1 : string) (v1 : Primitive)
    (c2 : string) (v2 : Primitive) : Task Heap Combinator :=
  do cb1 <~ eq (factory_where params c1) v1 ;;
  eq (and_ cb1 c2) v2.

(** [where(c1).eq(v1)] and then [where(c2).eq(v2)] on that same object. *)
Definition where_eq_where_eq (params : loc) (c1 : string) (v1 : Primitive)
    (c2 : string) (v2 : Primitive) : Task Heap (Combinator * Combinator) :=
  do cb1 <~ eq (factory_where params c1) v1 ;;
  do cb2 <~ eq (factory_where params c2) v2 ;;
  ret (cb1, cb2).

(** One further link of a chain: [.and(column)] or [.or(column)] followed
    by a comparator call with a value. *)
Record Link : Type := mkLink {
  link_or : bool;
  link_column : string;
  link_comparator : QueryComparator;
  link_value : Primitive;
}.

Definition link_conjunction (l : Link) : Conjunction :=
  if link_or l then OR else AND.

Definition follow (cb : Combinator) (l : Link) : Task Heap Combinator :=
  createComparatorCondition
    ((if link_or l then or_ else and_) cb (link_column l))
    (link_comparator l) (link_value l).

(** The links called one after the other, each on the combinator the
    previous call returned. *)
Fixpoint chain_from (cb : Combinator) (links : list Link)
    : Task Heap Combinator :=
  match links with
  | [] => ret cb
  | l :: rest => do cb' <~ follow cb l ;; chain_from cb' rest
  end.

(** [where(column).<comparator>(value)] on a factory, then the links. *)
Definition where_chain (params : loc) (column : string)
    (comparator : QueryComparator) (value : Primitive) (links : list Link)
    : Task Heap Combinator :=
  do cb <~ createComparatorCondition (factory_where params column)
                                     comparator value ;;
  chain_from cb links.

End Builder.

(* ================================================================= *)
(** ** Repository (repository.ts) *)

Module Repository.
Import Values Formatter Eff Eff.Notations.

(** A byte image: the content of an [ArrayBuffer]. *)
Definition Bytes := list N.

(** The sql.js binding the repository consumes: the two constructors of
    [Database], [exec] and [export].  [exec] may change the database and
    may throw.  The constructor from bytes is given room to throw
    ([None]); the one of sql.js does not look at the bytes, and a file that
    is not a database fails at the first statement run on it. *)
Class Engine : Type := {
  Db : Type;
  db_new : Db;
  db_open : Bytes → option Db;
  db_exec : Db → string → list SqlValue
            → Outcome (list QueryExecResult) * Db;
  db_export : Db → Bytes;
}.

(** What sql.js's [exec] does with a text of several statements: it runs
    them in order and collects a result for each statement that returned
    at least one row.  [statement_results] is the view per statement, in
    text order, [None] for a statement that returned no row. *)
Class Statements (E : Engine) : Type := {
  statement_results : Db → string → list SqlValue
                      → list (option QueryExecResult);
  exec_collects d q params results d' :
    db_exec d q params = (Returned results, d') →
    results = omap id (statement_results d q params);
}.

(** repository.ts exists in two revisions that differ in the [catch] of
    [save]: the first logs only, the second logs and re-throws. *)
Inductive Revision : Type := SaveSwallows | SaveRethrows.

(** The argument of the change handler, [TAbstractFile]. *)
Record TAbstractFile : Type := mkFile {
  path : string;
  deleted : bool;
}.

(** What the host may refuse to do. *)
Record Faults : Type := mkFaults {
  wasm_fails : bool;      (* initSqlJs rejects *)
  read_fails : bool;      (* adapter.readBinary rejects *)
  write_fails : bool;     (* adapter.writeBinary rejects *)
  mkdir_fails : bool;     (* vault.createFolder rejects *)
}.

Definition no_faults : Faults := mkFaults false false false false.

(** What the repository does to the outside. *)
Inductive Event : Type :=
| ConsoleError (message : string)
| ConsoleLog (message : string)
| ReadBinary
| WriteBinary (data : Bytes)
| CreateFolder
| RegisterEvent.

Section WithEngine.
Context {E : Engine} {R : JsRuntime}.
Variable revision : Revision.
Variable normalizePath : string → string.

(** A [Database] object: its identity and its current content. *)
Record Instance : Type := mkInstance {
  inst_id : nat;
  inst_db : Db;
}.

(** The repository object and the part of the host it touches. *)
Record World : Type := mkWorld {
  db : option Instance;        (* this.db *)
  isSaving : bool;             (* this.#isSaving *)
  sql : bool;                  (* this.#sql is set *)
  dbFilePath : string;         (* this.#dbFilePath *)
  schema : string;             (* this.#schema *)
  dataDir : bool;              (* the folder DATA_DIRECTORY exists *)
  dbFile : option Bytes;       (* the file at dbFilePath *)
  faults : Faults;
  next_id : nat;               (* identity of the next Database object *)
  trace : list Event;
}.

Definition set_db (v : option Instance) (w : World) : World :=
  mkWorld v (isSaving w) (sql w) (dbFilePath w) (schema w) (dataDir w)
          (dbFile w) (faults w) (next_id w) (trace w).
Definition set_isSaving (v : bool) (w : World) : World :=
  mkWorld (db w) v (sql w) (dbFilePath w) (schema w) (dataDir w)
          (dbFile w) (faults w) (next_id w) (trace w).
Definition set_sql (v : bool) (w : World) : World :=
  mkWorld (db w) (isSaving w) v (dbFilePath w) (schema w) (dataDir w)
          (dbFile w) (faults w) (next_id w) (trace w).
Definition set_dataDir (v : bool) (w : World) : World :=
  mkWorld (db w) (isSaving w) (sql w) (dbFilePath w) (schema w) v
          (dbFile w) (faults w) (next_id w) (trace w).
Definition set_dbFile (v : option Bytes) (w : World) : World :=
  mkWorld (db w) (isSaving w) (sql w) (dbFilePath w) (schema w) (dataDir w)
          v (faults w) (next_id w) (trace w).
Definition set_next_id (v : nat) (w : World) : World :=
  mkWorld (db w) (isSaving w) (sql w) (dbFilePath w) (schema w) (dataDir w)
          (dbFile w) (faults w) v (trace w).
Definition set_trace (v : list Event) (w : World) : World :=
  mkWorld (db w) (isSaving w) (sql w) (dbFilePath w) (schema w) (dataDir w)
          (dbFile w) (faults w) (next_id w) v.

Definition emit (e : Event) : Task World unit :=
  modify (λ w, set_trace (trace w ++ [e]) w).

(** *** The host *)

Definition initSqlJs : Task World unit :=
  do w <~ get ;;
  if wasm_fails (faults w) then throw (JsError "initSqlJs rejected")
  else ret tt.

Definition readBinary : Task World Bytes :=
  do w <~ get ;;
  if read_fails (faults w) then throw (JsError "readBinary rejected")
  else match dbFile w with
       | None => throw (JsError "readBinary: no such file")
       | Some bytes => do _ <~ emit ReadBinary ;; ret bytes
       end.

Definition writeBinary (data : Bytes) : Task World unit :=
  do w <~ get ;;
  if write_fails (faults w) then throw (JsError "writeBinary rejected")
  else do _ <~ modify (set_dbFile (Some data)) ;; emit (WriteBinary data).

Definition createFolder : Task World unit :=
  do w <~ get ;;
  if mkdir_fails (faults w) then throw (JsError "createFolder rejected")
  else do _ <~ modify (set_dataDir true) ;; emit CreateFolder.

(** *** The engine objects *)

(** [new sql.Database()] and the tail of [new sql.Database(bytes)]:
    a new object. *)
Definition new_Database (content : Db) : Task World Instance :=
  λ w, (Returned (mkInstance (next_id w) content),
        set_next_id (S (next_id w)) w).

Definition new_Database_from (bytes : Bytes) : Task World Instance :=
  match db_open bytes with
  | Some content => new_Database content
  | None => throw (JsError "file is not a database")
  end.

(** [this.db.exec(query, params)]. *)
Definition this_db_exec (query : string) (params : list SqlValue)
    : Task World (list QueryExecResult) :=
  do w <~ get ;;
  match db w with
  | None => throw (JsError "TypeError: this.db is undefined")
  | Some inst =>
      let '(r, content) := db_exec (inst_db inst) query params in
      do _ <~ modify (set_db (Some (mkInstance (inst_id inst) content))) ;;
      match r with
      | Returned results => ret results
      | Thrown error => throw error
      end
  end.

(** *** Methods of [SQLiteRepository] *)

Definition loadWasm : Task World unit :=
  try_catch initSqlJs
    (λ error,
       do _ <~ emit (ConsoleError "Failed to initialize WASM") ;;
       throw error).

Definition dbExists (w : World) : bool :=
  if dataDir w then bool_decide (is_Some (dbFile w)) else false.

Definition reloadDb : Task World (option Instance) :=
  try_catch
    (do w <~ get ;;
     do _ <~ (if sql w then ret tt
              else do _ <~ loadWasm ;; modify (set_sql true)) ;;
     do dbArrayBuffer <~ readBinary ;;
     do inst <~ new_Database_from dbArrayBuffer ;;
     do _ <~ modify (set_db (Some inst)) ;;
     ret (Some inst))
    (λ error,
       do _ <~ emit (ConsoleError "Failed to reload database") ;;
       ret None).

Definition execSql (query : string) (params : list Primitive)
    : Task World (list (list Row)) :=
  try_catch
    (do results <~ this_db_exec query (coerceParams params) ;;
     match results with
     | [] => ret [[]]
     | _ => of_outcome (map_throwing formatResult results)
     end)
    (λ error,
       do _ <~ emit (ConsoleError "Database query failed") ;;
       ret [[]]).

(** What becomes of the engine's answer: the formatted results, or
    [[[]]] when the engine threw, returned no result, or a row could not
    be formatted. *)
Definition rows_of_answer (answer : Outcome (list QueryExecResult))
    : list (list Row) :=
  match answer with
  | Returned (result :: results) =>
      match map_throwing formatResult (result :: results) with
      | Returned rows => rows
      | Thrown _ => [[]]
      end
  | _ => [[]]
  end.

(** Whether [execSql] ends in its [catch]: the engine threw, or a row
    could not be formatted. *)
Definition answer_caught (answer : Outcome (list QueryExecResult)) : bool :=
  match answer with
  | Thrown _ => true
  | Returned [] => false
  | Returned results =>
      match map_throwing formatResult results with
      | Returned _ => false
      | Thrown _ => true
      end
  end.

(** The specification's reading of [query], in terms of the results per
    statement: the formatted result of the first statement of the text,
    the empty array when that statement returned no row. *)
Definition first_statement_rows (per_statement : list (option QueryExecResult))
    : Outcome (list Row) :=
  match per_statement with
  | Some result :: _ => formatResult result
  | _ => Returned []
  end.

(** The rows of the first result the engine lists: the formatted result
    of the first statement of the text that returned rows, the empty array
    when no statement did. *)
Definition first_result_rows (per_statement : list (option QueryExecResult))
    : Outcome (list Row) :=
  match omap id per_statement with
  | result :: _ => formatResult result
  | [] => Returned []
  end.

(** [query]: [result[0]] is [None] where JavaScript reads [undefined]. *)
Definition query (sqlText : string) (params : list Primitive)
    : Task World (option (list Row)) :=
  do result <~ execSql sqlText params ;;
  let rows := result !! 0%nat in
  ret rows.

Definition not_initialized : Error :=
  JsError "Database was not initialized on repository".

(** [save], with the call to [initDb] left open.  The promise of
    [writeBinary] is returned from inside the [try] without being awaited,
    so its rejection is not seen by the [catch]. *)
Definition save_with (initDb : Task World (option Instance))
    (creating : bool) : Task World unit :=
  do w <~ get ;;
  match db w with
  | None => throw not_initialized
  | Some inst =>
      do pending <~
        try_catch
          (do _ <~ modify (set_isSaving true) ;;
           let data := db_export (inst_db inst) in
           do w1 <~ get ;;
           do _ <~ (if negb creating && negb (dbExists w1)
                    then do _ <~ initDb ;; ret tt
                    else ret tt) ;;
           do w2 <~ get ;;
           do _ <~ (if dataDir w2 then ret tt else createFolder) ;;
           ret (Some data))
          (λ error,
             do _ <~ emit (ConsoleError "Failed to save database") ;;
             match revision with
             | SaveSwallows => ret None
             | SaveRethrows => throw error
             end) ;;
      match pending with
      | Some data => writeBinary data
      | None => ret tt
      end
  end.

(** [initDb], with the call to [save] left open. *)
Definition initDb_with (save : bool → Task World unit)
    : Task World (option Instance) :=
  try_catch
    (do _ <~ loadWasm ;;
     do inst <~ new_Database db_new ;;
     do _ <~ modify (set_db (Some inst)) ;;
     do w <~ get ;;
     do _ <~ this_db_exec (schema w) [] ;;
     do _ <~ save true ;;
     do _ <~ emit (ConsoleLog "Incremental Reading database initialized") ;;
     do w' <~ get ;;
     ret (db w'))
    (λ error,
       do _ <~ emit (ConsoleError "initDb failed") ;;
       ret None).

(** [save] and [initDb] call each other; [save(true)] never reaches its
    call of [initDb], which closes the recursion. *)
Definition initDb : Task World (option Instance) :=
  initDb_with (save_with (ret None)).

Definition save (creating : bool) : Task World unit :=
  save_with initDb creating.

Definition mutate (sqlText : string) (params : list Primitive)
    : Task World (list (list Row)) :=
  do result <~ execSql sqlText params ;;
  do _ <~ save false ;;
  ret result.

Definition updateSchema : Task World unit :=
  do w <~ get ;;
  do _ <~ this_db_exec (schema w) [] ;;
  save false.

Definition loadDb : Task World (option Instance) :=
  try_catch
    (do result <~ reloadDb ;;
     match result with
     | None => ret None
     | Some inst =>
         do _ <~ updateSchema ;;
         do _ <~ emit (ConsoleLog "Incremental Reading database loaded") ;;
         ret (Some inst)
     end)
    (λ error,
       do _ <~ emit (ConsoleError "loadDb failed") ;;
       ret None).

Definition handleFileChange (file : TAbstractFile) : Task World unit :=
  do w <~ get ;;
  if negb (bool_decide (path file = dbFilePath w)) || deleted file
  then ret tt
  else if isSaving w
  then modify (set_isSaving false)
  else do _ <~ reloadDb ;; ret tt.

(** The host delivering notifications one after the other, each awaited. *)
Fixpoint notify_all (files : list TAbstractFile) : Task World unit :=
  match files with
  | [] => ret tt
  | file :: rest => do _ <~ handleFileChange file ;; notify_all rest
  end.

(** The constructor: the host part of the world is kept, the fields of
    the object start as the class declares them. *)
Definition construct (filePath schemaText : string) (w : World) : World :=
  mkWorld None false false (normalizePath filePath) schemaText
          (dataDir w) (dbFile w) (faults w) (next_id w) (trace w).

Definition load_failed (filePath : string) : Error :=
  JsError ("Db file found at " +:+ filePath +:+ ", but failed to load").

(** The factory [start]; the repository it returns is the final world. *)
Definition start (filePath schemaText : string) : Task World unit :=
  do _ <~ modify (construct filePath schemaText) ;;
  do repo <~ get ;;
  do _ <~ (if dbExists repo
           then do result <~ loadDb ;;
                match result with
                | None => throw (load_failed filePath)
                | Some _ => ret tt
                end
           else do _ <~ initDb ;; ret tt) ;;
  emit RegisterEvent.


(** *** Invariants *)

(** [m] keeps [P]: if [P] holds before, it holds after, whether [m]
    returns or throws. *)
Definition keeps {A} (P : World → Prop) (m : Task World A) : Prop :=
  ∀ w, P w → P (store (m w)).

(** Predicates that no step on the host side can falsify: such steps
    assign the engine factory, the trace and the file, create the folder,
    and set the guard. *)
Class HostStable (P : World → Prop) : Prop := {
  stable_sql v w : P w → P (set_sql v w);
  stable_trace v w : P w → P (set_trace v w);
  stable_dbFile v w : P w → P (set_dbFile v w);
  stable_dataDir w : P w → P (set_dataDir true w);
  stable_isSaving w : P w → P (set_isSaving true w);
}.

(** Predicates that, in addition, do not look at the database object. *)
Class Stable (P : World → Prop) : Prop := {
  stable_host :: HostStable P;
  stable_db v w : P w → P (set_db v w);
  stable_next_id v w : P w → P (set_next_id v w);
}.

(** Identities already handed out lie below the counter. *)
Definition fresh_ids (w : World) : Prop :=
  ∀ inst, db w = Some inst → inst_id inst < next_id w.

End WithEngine.

Arguments World {E}.
Arguments Instance {E}.

End Repository.

(* ================================================================= *)
(** ** INSERT builder *)

Module Insert.
Import Values.

(** Modelled from the spec: the INSERT builder
    [insert(table).columns(...).values(...).build()].  Its code
    (QueryComposer.ts) is not among the sources; InsertQuery.ts only
    declares the class with an empty body.  The spec: "[columns(...)]
    declares the column order; [.values(...)] accepts one or more row
    objects, emitting one parenthesized value-placeholder group per row
    ([VALUES (?, ?), (?, ?)]), with parameters flattened row-major in the
    same column order declared".  A row object lacking a declared column
    reads [undefined] there. *)
Definition placeholder_group (k : nat) : string :=
  "(" +:+ String.concat ", " (replicate k "?") +:+ ")".

(** Modelled from the spec: one placeholder group per row object,
    separated by commas. *)
Definition values_clause (cols : list string) (rows : list (gmap string Primitive))
    : string :=
  String.concat ", " (map (λ _, placeholder_group (length cols)) rows).

(** Modelled from the spec: the values of one row object in the declared
    column order. *)
Definition row_params (cols : list string) (row : gmap string Primitive)
    : list Primitive :=
  map (λ c, default PUndefined (row !! c)) cols.

Record Built : Type := mkBuilt {
  query : string;
  queryParams : list Primitive;
}.

(** Modelled from the spec: [build()] of the INSERT builder, the text
    and the parameters flattened row by row. *)
Definition build (table : string) (cols : list string)
    (rows : list (gmap string Primitive)) : Built :=
  mkBuilt
    ("INSERT INTO " +:+ table +:+ " (" +:+ String.concat ", " cols
       +:+ ") VALUES " +:+ values_clause cols rows)
    (concat (map (row_params cols) rows)).

(** Occurrences of a character in a text. *)
Fixpoint count_char (c : Ascii.ascii) (s : string) : nat :=
  match s with
  | EmptyString => 0
  | String a s' => (if decide (a = c) then 1 else 0) + count_char c s'
  end.

End Insert.

(* ================================================================= *)
(** ** A small engine to run the repository on *)

Module Toy.
Import Values Formatter Eff Repository.

(** One table [t] with one numeric column [n]; the database is the list
    of its rows and the byte image is that list.  As with sql.js, any bytes
    open as a database; an image starting with 255 stands for a file that
    is not a database: once opened, every statement on it fails. *)
Definition toy_rows (d : list N) : option QueryExecResult :=
  match d with
  | [] => None
  | _ => Some (mkResult ["n"] (map (λ n, [SqlNumber (Z.of_N n)]) d))
  end.

(** The texts the engine knows, with the result of each of their
    statements ([None] for a statement that returns no row) and the
    database afterwards. *)
Definition toy_run (d : list N) (q : string) (ps : list SqlValue)
    : Outcome (list (option QueryExecResult)) * list N :=
  match d with
  | 255%N :: _ => (Thrown (JsError "file is not a database"), d)
  | _ =>
    if decide (q = "CREATE TABLE IF NOT EXISTS t (n)") then (Returned [None], d)
    else if decide (q = "INSERT INTO t VALUES ($1)") then
      match ps with
      | [SqlNumber n] => (Returned [None], d ++ [Z.to_N n])
      | _ => (Thrown (JsError "wrong number of bind parameters"), d)
      end
    else if decide (q = "SELECT n FROM t") then (Returned [toy_rows d], d)
    else if decide (q = "SELECT n FROM t; SELECT n FROM t") then
      (Returned [toy_rows d; toy_rows d], d)
    else if decide (q = "INSERT INTO t VALUES (7); SELECT n FROM t") then
      match ps with
      | [] => (Returned [None; toy_rows (d ++ [7%N])], d ++ [7%N])
      | _ => (Thrown (JsError "wrong number of bind parameters"), d)
      end
    else (Thrown (JsError "syntax error"), d)
  end.

(** [exec]: the results of the statements that returned rows. *)
Definition toy_exec (d : list N) (q : string) (ps : list SqlValue)
    : Outcome (list QueryExecResult) * list N :=
  match toy_run d q ps with
  | (Returned per_statement, d') => (Returned (omap id per_statement), d')
  | (Thrown error, d') => (Thrown error, d')
  end.

Definition toy_statement_results (d : list N) (q : string)
    (ps : list SqlValue) : list (option QueryExecResult) :=
  match toy_run d q ps with
  | (Returned per_statement, _) => per_statement
  | (Thrown _, _) => []
  end.

Definition toy_open (bytes : Bytes) : option (list N) := Some bytes.

(** The rows [ns] of the table as [query] returns them. *)
Definition toy_objects (ns : list Z) : list Row :=
  map (λ n, mkObject {["n" := SqlNumber n]} ObjectPrototype) ns.

#[export] Instance toy_engine : Engine := {|
  Db := list N;
  db_new := [];
  db_open := toy_open;
  db_exec := toy_exec;
  db_export := λ d, d;
|}.

#[export] Instance toy_statements : Statements toy_engine.
Proof.
  refine {| statement_results := toy_statement_results |}.
  intros d q params results d'. simpl. unfold toy_exec, toy_statement_results.
  destruct (toy_run d q params) as [[per_statement | error] d2]; [| discriminate].
  by intros [= <- _].
Defined.

(** A decimal numeral without sign and without leading zero. *)
Definition decimal_numeral (key : string) : bool :=
  match key with
  | EmptyString => false
  | String "0"%char EmptyString => true
  | String "0"%char _ => false
  | _ => forallb (λ a, Nat.leb 48 (Ascii.nat_of_ascii a)
                       && Nat.leb (Ascii.nat_of_ascii a) 57)
                 (String.list_ascii_of_string key)
  end.

(** How keys resolve on the prototype chain of a [Uint8Array]: the
    accessors without setter and the read-only property of the chain
    reject an assignment, an index inside the array resolves to a
    writable element, other numerals resolve to nothing.  Numerals with a
    sign, a fraction or an exponent are not recognised by this small
    runtime. *)
Definition toy_typed_array_key (bytes : list N) (key : string) : Inherited :=
  if decide (key ∈ ["buffer"; "byteLength"; "byteOffset"; "length";
                    "BYTES_PER_ELEMENT"])
  then Rejected
  else if decide (key ∈ ["NaN"; "Infinity"; "-Infinity"; "-0"]) then Ignored
  else if decimal_numeral key then
    if decide (key ∈ (λ n, pretty n) <$> seq 0 (length bytes))
    then CreatesOwn else Ignored
  else CreatesOwn.

#[export] Instance toy_runtime : JsRuntime := {|
  typed_array_key := toy_typed_array_key;
  typed_array_key_undefined := λ _, eq_refl;
|}.

Definition toy_schema : string := "CREATE TABLE IF NOT EXISTS t (n)".
Definition toy_path : string := "increading/ir-user-data.sqlite".

(** A vault without the data folder and without the database file. *)
Definition empty_vault (f : Faults) : World :=
  mkWorld None false false toy_path toy_schema false None f 0 [].

(** A ready repository holding the rows [d], saved as [d]. *)
Definition ready (d : list N) (guard : bool) : World :=
  mkWorld (Some (mkInstance 0 d)) guard true toy_path toy_schema
          true (Some d) no_faults 1 [].

(** A repository holding the rows [d] (when given), on a vault and a host
    chosen freely. *)
Definition toy_world (d : option (list N)) (folder : bool)
    (file : option Bytes) (f : Faults) : World :=
  mkWorld (match d with
           | Some rows => Some (mkInstance 0 rows)
           | None => None
           end)
          false true toy_path toy_schema folder file f 1 [].

End Toy.

(* ================================================================= *)
(** * Properties *)

(** ** Value coercion *)

Section CoercionProperties.
Import Values.

Lemma coerceParam_rule (p : Primitive) : coercion_rule p (coerceParam p).
Proof.
  destruct p as [[]| | | | |]; simpl;
    first [ by constructor | by apply rule_unchanged ].
Qed.

Lemma coercion_rule_functional p v1 v2 :
  coercion_rule p v1 → coercion_rule p v2 → v1 = v2.
Proof.
  intros H1 H2.
  destruct H1; inversion H2; subst; simpl in *; congruence.
Qed.

(** C7. [coerceParams] relates the inputs to the outputs element by
    element, in order and in equal number, by the coercion rules (boolean
    to 1 or 0, symbol to its string form, undefined to null, string,
    number and null unchanged); the list
    [[true, false, undefined, Symbol('x')]] becomes
    [[1, 0, null, "Symbol(x)"]]. *)
Theorem coerceParams_by_runtime_type :
  (∀ params : list Primitive,
     Forall2 coercion_rule params (coerceParams params)
     ∧ length (coerceParams params) = length params
     ∧ ∀ i, coerceParams params !! i = coerceParam <$> params !! i)
  ∧ coerceParams [PBoolean true; PBoolean false; PUndefined; PSymbol (Some "x")]
    = [SqlNumber 1; SqlNumber 0; SqlNull; SqlString "Symbol(x)"].
Proof.
  split; [| reflexivity].
  intros params. unfold coerceParams. repeat split.
  - induction params as [| p params IH]; simpl; constructor;
      [apply coerceParam_rule | exact IH].
  - apply length_map.
  - intros i. apply list_lookup_fmap.
Qed.

End CoercionProperties.

(** ** Result formatter *)

Section FormatterProperties.
Import Values Eff Formatter.
Context {R : JsRuntime}.

Implicit Types (cols : list string) (row : list SqlValue) (acc obj : Row).

(** A key no later cell is assigned to keeps its value. *)
Lemma own_after_untouched cols row i (m : gmap string SqlValue) c :
  (∀ j, j < length row → column_key cols (i + j) ≠ c) →
  own_after cols row i m !! c = m !! c.
Proof.
  revert i m. induction row as [| cell row IH]; intros i m Hfree; simpl.
  - reflexivity.
  - rewrite IH.
    + apply lookup_insert_ne.
      specialize (Hfree 0). rewrite Nat.add_0_r in Hfree.
      apply Hfree. simpl. lia.
    + intros j Hj. replace (S i + j) with (i + S j) by lia.
      apply Hfree. simpl. lia.
Qed.

(** The last cell assigned to a key is the one the object holds. *)
Lemma own_after_last cols row i (m : gmap string SqlValue) c k cell :
  row !! k = Some cell →
  column_key cols (i + k) = c →
  (∀ j, k < j → j < length row → column_key cols (i + j) ≠ c) →
  own_after cols row i m !! c = Some cell.
Proof.
  revert i m k. induction row as [| x row IH]; intros i m k Hk Hkey Hlast.
  - discriminate.
  - destruct k as [| k]; simpl in *.
    + injection Hk as ->. rewrite own_after_untouched.
      * rewrite Nat.add_0_r in Hkey. rewrite Hkey.
        apply lookup_insert_eq.
      * intros j Hj. replace (S i + j) with (i + S j) by lia.
        apply Hlast; lia.
    + apply (IH (S i) _ k); [exact Hk | |].
      * replace (S i + k) with (i + S k) by lia. exact Hkey.
      * intros j Hkj Hj. replace (S i + j) with (i + S j) by lia.
        apply Hlast; lia.
Qed.

(** A key that is assigned at all is present at the end. *)
Lemma own_after_present cols row i (m : gmap string SqlValue) c :
  is_Some (m !! c) ∨ (∃ k, k < length row ∧ column_key cols (i + k) = c) →
  is_Some (own_after cols row i m !! c).
Proof.
  revert i m. induction row as [| x row IH]; intros i m H; simpl.
  - destruct H as [H | (k & Hk & _)]; [exact H | simpl in Hk; lia].
  - apply IH.
    destruct H as [H | (k & Hk & Hkey)].
    + left. rewrite lookup_insert. case_decide; eauto.
    + destruct k as [| k].
      * left. rewrite Nat.add_0_r in Hkey. rewrite Hkey, lookup_insert_eq. eauto.
      * right. exists k. split; [simpl in Hk; lia |].
        replace (S i + k) with (i + S k) by lia. exact Hkey.
Qed.

Lemma column_key_lookup cols i c : cols !! i = Some c → column_key cols i = c.
Proof. unfold column_key. by intros ->. Qed.

(** On an object whose prototype is [Object.prototype], every key but
    [__proto__] is created or overwritten as an own property. *)
Lemma set_property_ordinary (o : JsObject) key v :
  key ≠ "__proto__" → prototype o = ObjectPrototype →
  set_property o key v = Returned (define_own o key v).
Proof.
  intros Hkey Hproto. unfold set_property. rewrite Hproto.
  destruct (own o !! key); [reflexivity |]. by rewrite decide_False.
Qed.

(** A row none of whose cells is assigned to [__proto__] formats without
    exception to an object with the prototype of [{}]. *)
Lemma reduce_from_ordinary cols row i acc :
  (∀ j, j < length row → column_key cols (i + j) ≠ "__proto__") →
  prototype acc = ObjectPrototype →
  reduce_from (assign_cell cols) row i acc
  = Returned (mkObject (own_after cols row i (own acc)) ObjectPrototype).
Proof.
  revert i acc. induction row as [| cell row IH]; intros i acc Hfree Hproto.
  - simpl. destruct acc as [m p]. simpl in *. by subst p.
  - simpl. unfold assign_cell at 1. rewrite set_property_ordinary.
    + rewrite IH; [reflexivity | | exact Hproto].
      intros j Hj. replace (S i + j) with (i + S j) by lia.
      apply Hfree. simpl. lia.
    + specialize (Hfree 0). rewrite Nat.add_0_r in Hfree.
      apply Hfree. simpl. lia.
    + exact Hproto.
Qed.

Lemma map_throwing_all {A B} (f : A → Outcome B) (g : A → B) (l : list A) :
  (∀ x, x ∈ l → f x = Returned (g x)) →
  map_throwing f l = Returned (map g l).
Proof.
  induction l as [| x l IH]; intros Hall; simpl; [reflexivity |].
  rewrite Hall by apply list_elem_of_here.
  rewrite IH; [reflexivity |].
  intros y Hy. apply Hall. by apply list_elem_of_further.
Qed.

Lemma map_throwing_length {A B} (f : A → Outcome B) (l : list A) ys :
  map_throwing f l = Returned ys → length ys = length l.
Proof.
  revert ys. induction l as [| x l IH]; intros ys; simpl.
  - by intros [= <-].
  - destruct (f x) as [y | e]; [| discriminate].
    destruct (map_throwing f l) as [ys' | e]; [| discriminate].
    intros [= <-]. simpl. by rewrite (IH ys').
Qed.

(** When no cell of a result is assigned to the key [__proto__],
    [formatResult] returns one row object per value row, at the same
    position; in the object of a row, a column name maps to the cell at the
    column's index unless a later cell of the row is assigned to the same
    name, in which case the later cell is the one kept; with one cell per
    column no column name is missing, and with distinct column names each
    maps to its own cell. *)
Lemma formatResult_rows_without_proto (result : QueryExecResult) :
  (∀ row, row ∈ values result →
     ∀ j, j < length row → column_key (columns result) j ≠ "__proto__") →
  ∃ objs : list Row,
    formatResult result = Returned objs
    ∧ length objs = length (values result)
    ∧ ∀ (k : nat) (row : list SqlValue),
        values result !! k = Some row →
        ∃ obj : Row,
          objs !! k = Some obj
          ∧ prototype obj = ObjectPrototype
          ∧ (∀ i c cell,
               columns result !! i = Some c →
               row !! i = Some cell →
               (∀ j, i < j → j < length row →
                     column_key (columns result) j ≠ c) →
               own obj !! c = Some cell)
          ∧ ((length (columns result) ≤ length row)%nat →
             ∀ c, c ∈ columns result → is_Some (own obj !! c))
          ∧ (NoDup (columns result) →
             length row = length (columns result) →
             ∀ i c, columns result !! i = Some c → own obj !! c = row !! i).
Proof.
  intros Hfree.
  set (g := λ row, mkObject (own_after (columns result) row 0 ∅) ObjectPrototype).
  exists (map g (values result)). split.
  { unfold formatResult. apply map_throwing_all. intros row Hrow.
    unfold format_row. rewrite reduce_from_ordinary; [reflexivity | | reflexivity].
    intros j Hj. simpl. by apply (Hfree row). }
  split; [apply length_map |].
  intros k row Hrow. exists (g row).
  split; [by rewrite list_lookup_fmap, Hrow |].
  split; [reflexivity |]. subst g. simpl. repeat split.
  - intros i c cell Hc Hcell Hlast.
    apply (own_after_last _ _ 0 _ _ i); simpl; auto using column_key_lookup.
  - intros Hlen c Hin. apply own_after_present. right.
    apply list_elem_of_lookup in Hin as [i Hi]. exists i. split.
    + apply lookup_lt_Some in Hi. lia.
    + simpl. by apply column_key_lookup.
  - intros Hnodup Hlen i c Hc.
    assert (Hi : i < length row) by (apply lookup_lt_Some in Hc; lia).
    destruct (lookup_lt_is_Some_2 row i Hi) as [cell Hcell].
    rewrite Hcell. apply (own_after_last _ _ 0 _ _ i); simpl; auto using column_key_lookup.
    intros j Hij Hj Hkey. rewrite Hlen in Hj.
    destruct (lookup_lt_is_Some_2 (columns result) j Hj) as [c' Hc'].
    rewrite (column_key_lookup _ _ _ Hc') in Hkey. subst c'.
    pose proof (NoDup_lookup _ _ _ _ Hnodup Hc Hc'). lia.
Qed.

(** C8 (the code departs from it).  A column named [__proto__] is
    dropped: [Object.assign] assigns the key through the setter inherited
    from [Object.prototype], which ignores a number or a string and
    creates no own property.  The result
    [{columns: ['__proto__', 'b'], values: [[1, 2]]}] formats to
    [[{b: 2}]], and [{columns: ['a', '__proto__'], values: [['x', 'y']]}]
    to [[{a: 'x'}]]; in both the row object has no own key [__proto__]
    although the column has a cell. *)
Theorem formatResult_drops_proto_column :
  formatResult (mkResult ["__proto__"; "b"] [[SqlNumber 1; SqlNumber 2]])
  = Returned [mkObject {["b" := SqlNumber 2]} ObjectPrototype]
  ∧ formatResult (mkResult ["a"; "__proto__"] [[SqlString "x"; SqlString "y"]])
    = Returned [mkObject {["a" := SqlString "x"]} ObjectPrototype]
  ∧ own (mkObject {["b" := SqlNumber 2]} ObjectPrototype) !! "__proto__" = None
  ∧ own (mkObject {["a" := SqlString "x"]} ObjectPrototype) !! "__proto__" = None.
Proof. repeat split. Qed.

(** The example of the specification. *)
Example formatResult_example :
  formatResult (mkResult ["a"; "b"]
                  [[SqlNumber 1; SqlString "x"]; [SqlNumber 2; SqlString "y"]])
  = Returned
      [ mkObject (<["b" := SqlString "x"]> {["a" := SqlNumber 1]}) ObjectPrototype;
        mkObject (<["b" := SqlString "y"]> {["a" := SqlNumber 2]}) ObjectPrototype ].
Proof. reflexivity. Qed.

End FormatterProperties.

(** ** Condition builder *)

Section BuilderProperties.
Import Values Eff Builder.

Lemma read_params_push params v h :
  read_params params (store (push_param params v h))
  = read_params params h ++ [v].
Proof.
  unfold read_params at 1. simpl. by rewrite lookup_insert_eq.
Qed.

(** C3. A comparator call that returns has appended a condition whose
    placeholder index is the length of the parameter array plus one at
    the moment of the call, and has pushed the compare value at the end
    of that array; hence the chain [where(c1).eq(v1).and(c2).eq(v2)] on a
    parameter array holding [ps] emits the placeholders
    [$(len+1)], [$(len+2)] and leaves [ps ++ [v1, v2]]: on the empty array
    every factory starts with, exactly [$1], [$2] and [[v1, v2]]. *)
Theorem createCondition_placeholder_order :
  (∀ column conjunction params conditions comparator compareValue h cb h',
     createCondition column conjunction params conditions
                     comparator compareValue h = (Returned cb, h') →
     let condition :=
       condition_text column comparator (length (read_params params h) + 1) in
     read_params params h' = read_params params h ++ [compareValue]
     ∧ comb_params cb = params
     ∧ match conjunction with
       | WHERE =>
           conditions = None
           ∧ conditions_of cb h' = Some (mkConditions condition [])
       | _ =>
           comb_conditions cb = conditions
           ∧ ∀ old, conditions_of cb h = Some old →
               conditions_of cb h'
               = Some (mkConditions (leading old)
                         (chained old ++ [(conjunction, condition)]))
       end)
  ∧ (∀ params c1 v1 c2 v2 h,
       ∃ cb h',
         where_eq_and_eq params c1 v1 c2 v2 h = (Returned cb, h')
         ∧ read_params params h' = read_params params h ++ [v1; v2]
         ∧ conditions_of cb h'
           = Some (mkConditions
                     (condition_text c1 CmpEq (length (read_params params h) + 1))
                     [(AND, condition_text c2 CmpEq
                              (length (read_params params h) + 2))]))
  ∧ (∀ params c1 v1 c2 v2 h,
       read_params params h = [] →
       ∃ cb h',
         where_eq_and_eq params c1 v1 c2 v2 h = (Returned cb, h')
         ∧ read_params params h' = [v1; v2]
         ∧ conditions_of cb h'
           = Some (mkConditions (c1 +:+ " = $1") [(AND, c2 +:+ " = $2")])).
Proof.
  assert (Hchain : ∀ params c1 v1 c2 v2 h,
       ∃ cb h',
         where_eq_and_eq params c1 v1 c2 v2 h = (Returned cb, h')
         ∧ read_params params h' = read_params params h ++ [v1; v2]
         ∧ conditions_of cb h'
           = Some (mkConditions
                     (condition_text c1 CmpEq (length (read_params params h) + 1))
                     [(AND, condition_text c2 CmpEq
                              (length (read_params params h) + 2))])).
  { intros params c1 v1 c2 v2 h.
    unfold where_eq_and_eq, factory_where, eq, createComparatorCondition, and_,
      createConditions, createCondition, bind, get, ret, new_conditions,
      push_condition, push_param, modify; simpl.
    eexists _, _. split; [reflexivity |]. split.
    - unfold read_params; simpl. rewrite !lookup_insert_eq; simpl.
      by rewrite <- app_assoc.
    - unfold conditions_of, read_params; simpl.
      rewrite lookup_alter_eq, !lookup_insert_eq; simpl.
      rewrite length_app; simpl.
      by replace (length (default [] (param_arrays h !! params)) + 1 + 1)
        with (length (default [] (param_arrays h !! params)) + 2) by lia. }
  split; [| split; [exact Hchain |]].
  - intros column conjunction params conditions comparator v h cb h' Hrun.
    unfold createCondition, bind, get, ret, throw, new_conditions,
      push_condition, push_param, modify in Hrun.
    destruct conjunction, conditions as [l |]; simpl in Hrun;
      inversion Hrun; subst; clear Hrun; simpl;
      (split; [unfold read_params; simpl; by rewrite lookup_insert_eq |]);
      (split; [reflexivity |]).
    + split; [reflexivity |].
      unfold conditions_of; simpl. by rewrite lookup_insert_eq.
    + split; [reflexivity |]. intros old Hold.
      unfold conditions_of in *; simpl in *.
      by rewrite lookup_alter_eq, Hold.
    + split; [reflexivity |]. intros old Hold.
      unfold conditions_of in *; simpl in *.
      by rewrite lookup_alter_eq, Hold.
  - intros params c1 v1 c2 v2 h Hempty.
    destruct (Hchain params c1 v1 c2 v2 h) as (cb & h' & Hrun & Hps & Hcs).
    exists cb, h'. rewrite Hempty in Hps, Hcs. auto.
Qed.

(** The theorem on the chain of the test suite,
    [where('reference').eq('test.md').and('dismissed').eq(false)], and on
    a single [or('due').gte(7)] after one condition. *)
Lemma createCondition_placeholder_order_witness :
  (∃ cb h',
     where_eq_and_eq 0 "reference" (PString "test.md")
                     "dismissed" (PBoolean false)
                     (mkHeap {[0 := []]} ∅ 1) = (Returned cb, h')
     ∧ read_params 0 h' = [PString "test.md"; PBoolean false]
     ∧ conditions_of cb h'
       = Some (mkConditions "reference = $1" [(AND, "dismissed = $2")]))
  ∧ (let h := mkHeap {[0 := [PString "test.md"]]}
                     {[1 := mkConditions "reference = $1" []]} 2 in
     ∃ cb h',
       createCondition "due" OR 0 (Some 1) CmpGte (PNumber 7) h
       = (Returned cb, h')
       ∧ read_params 0 h' = [PString "test.md"; PNumber 7]
       ∧ conditions_of cb h'
         = Some (mkConditions "reference = $1" [(OR, "due >= $2")])).
Proof.
  split.
  - exact (proj2 (proj2 createCondition_placeholder_order)
                 0 "reference" (PString "test.md") "dismissed" (PBoolean false)
                 (mkHeap {[0 := []]} ∅ 1) eq_refl).
  - intros h. eexists _, _. split; [vm_compute; reflexivity |].
    destruct (proj1 createCondition_placeholder_order
                    "due" OR 0 (Some 1) CmpGte (PNumber 7) h _ _ eq_refl)
      as (Hparams & _ & _ & Hconds).
    split; [exact Hparams |].
    exact (Hconds (mkConditions "reference = $1" []) eq_refl).
Defined.

(** The two guards of [createCondition]: a WHERE-tagged call that is
    handed a condition array throws, and an AND- or OR-tagged one that is
    handed [null] throws; the error reaches the caller of the comparator
    method, no combinator is returned, and neither the parameter array nor
    any condition array has been touched. *)
Lemma createCondition_misuse_throws :
  (∀ column params l comparator compareValue h,
     createCondition column WHERE params (Some l) comparator compareValue h
     = (Thrown where_twice, h))
  ∧ (∀ column conjunction params comparator compareValue h,
       conjunction ≠ WHERE →
       createCondition column conjunction params None comparator compareValue h
       = (Thrown dangling_conjunction, h))
  ∧ (∀ wc comparator compareValue h,
       (wc_conjunction wc = WHERE ∧ is_Some (wc_conditions wc))
       ∨ (wc_conjunction wc ≠ WHERE ∧ wc_conditions wc = None) →
       ∃ error,
         createComparatorCondition wc comparator compareValue h
         = (Thrown error, h)).
Proof.
  repeat split.
  - intros column conjunction params comparator v h Hconj.
    by destruct conjunction.
  - intros [column conjunction params conditions] comparator v h; simpl.
    intros [[-> [l ->]] | [Hconj ->]].
    + by exists where_twice.
    + exists dangling_conjunction. by destruct conjunction.
Qed.

(** The lemma on [or(...)] called with no condition array, and on a
    second WHERE through a comparator object holding an array. *)
Lemma createCondition_misuse_throws_witness :
  createCondition "due" OR 0 None CmpGte (PNumber 7) (mkHeap {[0 := []]} ∅ 1)
  = (Thrown dangling_conjunction, mkHeap {[0 := []]} ∅ 1)
  ∧ ∃ error,
      eq (createConditions "due" WHERE 0 (Some 1)) (PNumber 7)
         (mkHeap {[0 := []]} {[1 := mkConditions "reference = $1" []]} 2)
      = (Thrown error,
         mkHeap {[0 := []]} {[1 := mkConditions "reference = $1" []]} 2).
Proof.
  split.
  - apply (proj1 (proj2 createCondition_misuse_throws)). discriminate.
  - apply (proj2 (proj2 createCondition_misuse_throws)).
    left. simpl. split; [reflexivity | eauto].
Defined.


End BuilderProperties.

(** ** INSERT builder *)

Section InsertProperties.
Import Values Insert.

Lemma string_append_assoc (s1 s2 s3 : string) :
  (s1 +:+ s2) +:+ s3 = s1 +:+ s2 +:+ s3.
Proof.
  induction s1 as [| a s1 IH]; [reflexivity |].
  exact (f_equal (String a) IH).
Qed.

Lemma count_char_app c s1 s2 :
  count_char c (s1 +:+ s2) = count_char c s1 + count_char c s2.
Proof.
  induction s1 as [| a s1 IH]; [reflexivity |].
  change (String a s1 +:+ s2) with (String a (s1 +:+ s2)).
  simpl. rewrite IH. lia.
Qed.

(** Joining [n] copies of [g] with [sep] multiplies the count in [g] and
    adds the count in [sep] between neighbours. *)
Lemma count_char_join c sep g n :
  count_char c (String.concat sep (replicate n g))
  = n * count_char c g + (n - 1) * count_char c sep.
Proof.
  induction n as [| n IH]; [reflexivity |].
  destruct n as [| n]; [simpl; lia |].
  change (String.concat sep (replicate (S (S n)) g))
    with (g +:+ sep +:+ String.concat sep (replicate (S n) g)).
  rewrite !count_char_app, IH. simpl. lia.
Qed.

Lemma count_placeholder_group k :
  count_char "?"%char (placeholder_group k) = k
  ∧ count_char "("%char (placeholder_group k) = 1
  ∧ count_char ")"%char (placeholder_group k) = 1.
Proof.
  unfold placeholder_group.
  rewrite !count_char_app, !count_char_join. simpl. repeat split; lia.
Qed.

Lemma values_clause_replicate cols (rows : list (gmap string Primitive)) :
  values_clause cols rows
  = String.concat ", "
      (replicate (length rows) (placeholder_group (length cols))).
Proof.
  unfold values_clause. f_equal.
  induction rows as [| row rows IH]; simpl; [reflexivity | by rewrite IH].
Qed.

Lemma length_row_params cols row : length (row_params cols row) = length cols.
Proof. apply length_map. Qed.

Lemma length_insert_params cols (rows : list (gmap string Primitive)) :
  length (concat (map (row_params cols) rows)) = length rows * length cols.
Proof.
  induction rows as [| row rows IH]; simpl; [reflexivity |].
  by rewrite length_app, length_row_params, IH.
Qed.

Lemma lookup_insert_params cols (rows : list (gmap string Primitive)) r j row c :
  rows !! r = Some row → cols !! j = Some c →
  concat (map (row_params cols) rows) !! (r * length cols + j)
  = Some (default PUndefined (row !! c)).
Proof.
  intros Hrow Hcol. revert r Hrow.
  induction rows as [| row0 rows IH]; intros r Hrow; [discriminate |].
  pose proof (lookup_lt_Some _ _ _ Hcol) as Hj.
  destruct r as [| r]; simpl in *.
  - injection Hrow as ->. rewrite lookup_app_l by (rewrite length_row_params; lia).
    unfold row_params. by rewrite list_lookup_fmap, Hcol.
  - rewrite lookup_app_r by (rewrite length_row_params; lia).
    rewrite length_row_params.
    replace (length cols + r * length cols + j - length cols)
      with (r * length cols + j) by lia.
    by apply IH.
Qed.

(** Joining texts with a separator adds up the counts of the texts and
    of the separators between them. *)
Lemma count_char_concat c sep (l : list string) :
  count_char c (String.concat sep l)
  = sum_list (count_char c <$> l) + (length l - 1) * count_char c sep.
Proof.
  induction l as [| s l IH]; [reflexivity |].
  destruct l as [| s' l]; [simpl; lia |].
  change (String.concat sep (s :: s' :: l))
    with (s +:+ sep +:+ String.concat sep (s' :: l)).
  rewrite !count_char_app, IH. simpl. lia.
Qed.

Lemma sum_list_zero (f : string → nat) (l : list string) :
  Forall (λ s, f s = 0) l → sum_list (f <$> l) = 0.
Proof.
  induction 1 as [| s l Hs _ IH]; [reflexivity |].
  rewrite fmap_cons. cbn [sum_list sum_list_with]. rewrite IH, Hs. reflexivity.
Qed.

(** C9. For an INSERT built from K declared columns and N row objects,
    the query text is the header followed by exactly N placeholder groups
    [(?, ..., ?)] of K placeholders each, joined by commas, and nothing
    else; when the table and column names contain no question mark and no
    parenthesis, the whole text has N*K question marks and N+1 opening and
    N+1 closing parentheses (one pair for the column list, one per
    group).  The parameter list has length N*K, the value of row [r] at
    column [j] standing at position [r*K + j]. *)
Theorem insert_build_groups (table : string) (cols : list string)
    (rows : list (gmap string Primitive)) :
  let K := length cols in
  let N := length rows in
  let built := build table cols rows in
  query built
  = "INSERT INTO " +:+ table +:+ " (" +:+ String.concat ", " cols
    +:+ ") VALUES " +:+ String.concat ", " (replicate N (placeholder_group K))
  ∧ placeholder_group K = "(" +:+ String.concat ", " (replicate K "?") +:+ ")"
  ∧ count_char "?"%char (placeholder_group K) = K
  ∧ (Forall (λ s, count_char "?"%char s = 0) (table :: cols) →
     count_char "?"%char (query built) = N * K)
  ∧ (Forall (λ s, count_char "("%char s = 0) (table :: cols) →
     count_char "("%char (query built) = N + 1)
  ∧ (Forall (λ s, count_char ")"%char s = 0) (table :: cols) →
     count_char ")"%char (query built) = N + 1)
  ∧ length (queryParams built) = N * K
  ∧ ∀ r j row c,
      rows !! r = Some row → cols !! j = Some c →
      queryParams built !! (r * K + j) = Some (default PUndefined (row !! c)).
Proof.
  intros K N built. subst K N built.
  destruct (count_placeholder_group (length cols)) as (Hq & Ho & Hc).
  assert (Htext : query (build table cols rows)
    = "INSERT INTO " +:+ table +:+ " (" +:+ String.concat ", " cols
      +:+ ") VALUES "
      +:+ String.concat ", "
            (replicate (length rows) (placeholder_group (length cols)))).
  { unfold build; cbn [query]. by rewrite values_clause_replicate. }
  split; [exact Htext |]. split; [reflexivity |]. split; [exact Hq |].
  assert (Hcount : ∀ c,
    Forall (λ s, count_char c s = 0) (table :: cols) →
    count_char c (query (build table cols rows))
    = count_char c "INSERT INTO " + count_char c " ("
      + count_char c ") VALUES "
      + (length cols - 1) * count_char c ", "
      + (length rows * count_char c (placeholder_group (length cols))
         + (length rows - 1) * count_char c ", ")).
  { intros c Hnames. apply Forall_cons in Hnames as [Htable Hcols].
    rewrite Htext, !count_char_app, count_char_join, count_char_concat.
    rewrite (sum_list_zero _ _ Hcols), Htable.
    lia. }
  split; [| split]; [| | split; [| split]].
  - intros Hnames. rewrite (Hcount _ Hnames), Hq. simpl. lia.
  - intros Hnames. rewrite (Hcount _ Hnames), Ho. simpl. lia.
  - intros Hnames. rewrite (Hcount _ Hnames), Hc. simpl. lia.
  - apply length_insert_params.
  - intros r j row c. apply lookup_insert_params.
Qed.

(** The theorem on the INSERT of the test suite: two rows, columns
    [reference] and [due]. *)
Lemma insert_build_groups_witness :
  let row1 : gmap string Primitive :=
    {[ "reference" := PString "increading/snippets/example-snippet-name";
       "due" := PNumber 86400000 ]} in
  let row2 : gmap string Primitive :=
    {[ "reference" := PString "increading/snippets/incremental-learning";
       "due" := PNumber 172800000 ]} in
  let built := build "snippet" ["reference"; "due"] [row1; row2] in
  query built = "INSERT INTO snippet (reference, due) VALUES (?, ?), (?, ?)"
  ∧ count_char "?"%char (query built) = 4
  ∧ count_char "("%char (query built) = 3
  ∧ count_char ")"%char (query built) = 3
  ∧ queryParams built !! (1 * 2 + 1) = Some (PNumber 172800000).
Proof.
  intros row1 row2 built.
  destruct (insert_build_groups "snippet" ["reference"; "due"] [row1; row2])
    as (Htext & _ & _ & Hq & Ho & Hc & _ & Hparams).
  split; [exact Htext |].
  split; [apply Hq; by repeat constructor |].
  split; [apply Ho; by repeat constructor |].
  split; [apply Hc; by repeat constructor |].
  exact (Hparams 1 1 row2 "due" eq_refl eq_refl).
Defined.

End InsertProperties.

(** ** Repository *)

Section RepositoryProperties.
Import Values Formatter Eff Repository.
Context {E : Engine} {R : JsRuntime}.
Variable revision : Revision.

Implicit Types (w : World) (q : string) (ps : list Primitive).

Ltac run_task :=
  unfold emit, try_catch, bind, get, ret, throw, modify, of_outcome,
    store, outcome in *;
  simpl in *.

(** *** Raw execution *)

(** [execSql] when the repository holds no database: the member access
    throws inside the [try]. *)
Lemma execSql_no_db w q ps :
  db w = None →
  execSql q ps w
  = (Returned [[]],
     set_trace (trace w ++ [ConsoleError "Database query failed"]) w).
Proof. intros Hdb. unfold execSql, this_db_exec. run_task. by rewrite Hdb. Qed.

(** [execSql] on a repository with a database: the statement is run on
    the engine, the database object holds what the engine left, and the
    answer of the engine decides the rest. *)
Lemma execSql_run w q ps inst r content :
  db w = Some inst →
  db_exec (inst_db inst) q (coerceParams ps) = (r, content) →
  execSql q ps w
  = (Returned (rows_of_answer r),
     if answer_caught r
     then set_trace (trace w ++ [ConsoleError "Database query failed"])
            (set_db (Some (mkInstance (inst_id inst) content)) w)
     else set_db (Some (mkInstance (inst_id inst) content)) w).
Proof.
  intros Hdb Hexec. unfold execSql, this_db_exec, rows_of_answer, answer_caught.
  unfold emit, try_catch, bind, get, ret, throw, modify, of_outcome.
  cbv beta iota. rewrite Hdb, Hexec. cbv beta iota.
  destruct r as [[| result results] | error]; [reflexivity | | reflexivity].
  cbv beta iota. by destruct (map_throwing formatResult (result :: results)).
Qed.

(** [execSql] when the engine throws. *)
Lemma execSql_engine_error w q ps inst error content :
  db w = Some inst →
  db_exec (inst_db inst) q (coerceParams ps) = (Thrown error, content) →
  execSql q ps w
  = (Returned [[]],
     set_trace (trace w ++ [ConsoleError "Database query failed"])
       (set_db (Some (mkInstance (inst_id inst) content)) w)).
Proof. intros Hdb Hexec. by rewrite (execSql_run _ _ _ _ _ _ Hdb Hexec). Qed.

(** What [execSql] makes of an answer is never empty. *)
Lemma rows_of_answer_cons r : ∃ first rest, rows_of_answer r = first :: rest.
Proof.
  unfold rows_of_answer. destruct r as [[| result results] | error]; eauto.
  destruct (map_throwing formatResult (result :: results)) as [rows |] eqn:Hrows;
    eauto.
  apply map_throwing_length in Hrows. destruct rows; [discriminate | eauto].
Qed.

(** [execSql] always returns, and what it returns is never empty. *)
Lemma execSql_returns w q ps :
  ∃ first rest w', execSql q ps w = (Returned (first :: rest), w').
Proof.
  destruct (db w) as [inst |] eqn:Hdb.
  - destruct (db_exec (inst_db inst) q (coerceParams ps)) as [r content] eqn:Hexec.
    rewrite (execSql_run _ _ _ _ _ _ Hdb Hexec).
    destruct (rows_of_answer_cons r) as (first & rest & ->).
    do 3 eexists; reflexivity.
  - rewrite (execSql_no_db _ _ _ Hdb). do 3 eexists; reflexivity.
Qed.

(** [execSql] touches neither the vault nor the guard, and writes no file. *)
Lemma execSql_frame w q ps :
  let w' := store (execSql q ps w) in
  isSaving w' = isSaving w ∧ dataDir w' = dataDir w ∧ dbFile w' = dbFile w
  ∧ faults w' = faults w
  ∧ (trace w' = trace w
     ∨ trace w' = trace w ++ [ConsoleError "Database query failed"]).
Proof.
  destruct (db w) as [inst |] eqn:Hdb.
  - destruct (db_exec (inst_db inst) q (coerceParams ps)) as [r content] eqn:Hexec.
    rewrite (execSql_run _ _ _ _ _ _ Hdb Hexec).
    destruct (answer_caught r); simpl; repeat split; auto.
  - rewrite (execSql_no_db _ _ _ Hdb). simpl. repeat split; auto.
Qed.

Lemma query_run w q ps first rest w' :
  execSql q ps w = (Returned (first :: rest), w') →
  query q ps w = (Returned (Some first), w').
Proof. intros Hrun. unfold query. run_task. by rewrite Hrun. Qed.

(** [query] hands on the first element of what [execSql] returned and
    leaves the world as [execSql] left it. *)
Lemma query_of_execSql w q ps result w' :
  execSql q ps w = (Returned result, w') →
  query q ps w = (Returned (result !! 0), w').
Proof. intros Hrun. unfold query. run_task. by rewrite Hrun. Qed.

(** [mutate] returns what [execSql] returned, if it returns. *)
Lemma mutate_result w q ps result w' v :
  execSql q ps w = (Returned result, w') →
  outcome (mutate revision q ps w) = Returned v → v = result.
Proof.
  intros Hrun. unfold mutate. run_task. rewrite Hrun.
  destruct (save revision false w') as [[[] | error] w'']; simpl; congruence.
Qed.

(** C5. [execSql] never throws.  When the engine's [exec] throws,
    [execSql] logs one error to the console and returns [[[]]], the
    result of a single statement without rows; this is also what it returns
    when the engine returns no result at all, so that in both cases
    [query] returns the empty array and [mutate], if it returns, returns
    [[[]]]. *)
Theorem execSql_swallows_engine_errors w q ps :
  (∃ result w', execSql q ps w = (Returned result, w'))
  ∧ (∀ inst error content,
       db w = Some inst →
       db_exec (inst_db inst) q (coerceParams ps) = (Thrown error, content) →
       execSql q ps w
       = (Returned [[]],
          set_trace (trace w ++ [ConsoleError "Database query failed"])
            (set_db (Some (mkInstance (inst_id inst) content)) w))
       ∧ outcome (query q ps w) = Returned (Some [])
       ∧ ∀ v, outcome (mutate revision q ps w) = Returned v → v = [[]])
  ∧ (∀ inst content,
       db w = Some inst →
       db_exec (inst_db inst) q (coerceParams ps) = (Returned [], content) →
       outcome (execSql q ps w) = Returned [[]]
       ∧ outcome (query q ps w) = Returned (Some [])
       ∧ ∀ v, outcome (mutate revision q ps w) = Returned v → v = [[]]).
Proof.
  split; [| split].
  - destruct (execSql_returns w q ps) as (first & rest & w' & Hrun). eauto.
  - intros inst error content Hdb Hexec.
    pose proof (execSql_engine_error _ _ _ _ _ _ Hdb Hexec) as Hrun.
    split; [exact Hrun |]. split.
    + by rewrite (query_run _ _ _ _ _ _ Hrun).
    + intros v. by apply mutate_result with (1 := Hrun).
  - intros inst content Hdb Hexec.
    pose proof (execSql_run _ _ _ _ _ _ Hdb Hexec) as Hrun.
    simpl in Hrun. split; [by rewrite Hrun |]. split.
    + by rewrite (query_run _ _ _ _ _ _ Hrun).
    + intros v. by apply mutate_result with (1 := Hrun).
Qed.

(** C10 (amended). [query] returns the formatted rows of the first
    entry of the engine's result list and nothing of the later entries,
    which [execSql] did format.  The engine lists a result only for a
    statement that returned rows, so the entry is that of the first
    statement of the text that returned rows, not of the first statement.
    [query] returns the empty array when [execSql] returned [[[]]], as it
    does when no statement returned rows; it never returns [undefined],
    and it leaves the world as [execSql] left it. *)
Theorem query_first_result_only `{!Statements E} w q ps :
  (∃ rows, outcome (query q ps w) = Returned (Some rows))
  ∧ store (query q ps w) = store (execSql q ps w)
  ∧ (∀ inst results content formatted,
       db w = Some inst →
       db_exec (inst_db inst) q (coerceParams ps) = (Returned results, content) →
       map_throwing formatResult results = Returned formatted →
       first_result_rows (statement_results (inst_db inst) q (coerceParams ps))
       = Returned (default [] (head formatted))
       ∧ outcome (query q ps w) = Returned (Some (default [] (head formatted)))
       ∧ (results ≠ [] → outcome (execSql q ps w) = Returned formatted))
  ∧ (outcome (execSql q ps w) = Returned [[]] →
     outcome (query q ps w) = Returned (Some [])).
Proof.
  destruct (execSql_returns w q ps) as (first & rest & w' & Hrun).
  rewrite (query_run _ _ _ _ _ _ Hrun).
  split; [by exists first |]. split; [by rewrite Hrun |]. split.
  - intros inst results content formatted Hdb Hexec Hformat.
    pose proof (execSql_run _ _ _ _ _ _ Hdb Hexec) as Hsql.
    rewrite Hsql in Hrun.
    unfold first_result_rows.
    rewrite <- (exec_collects _ _ _ _ _ Hexec).
    destruct results as [| result results].
    + simpl in Hformat. injection Hformat as <-.
      simpl in Hrun. injection Hrun as <- <- <-. by repeat split.
    + unfold rows_of_answer, answer_caught in Hrun, Hsql.
      rewrite Hformat in Hrun, Hsql.
      injection Hrun as -> _. split; [| split].
      * simpl in Hformat |- *.
        destruct (formatResult result) as [rows |]; [| discriminate].
        destruct (map_throwing formatResult results); [| discriminate].
        by injection Hformat as -> _.
      * reflexivity.
      * intros _. by rewrite Hsql.
  - rewrite Hrun. simpl. by intros [= -> ->].
Qed.


(** *** Invariants of the save protocol *)

#[local] Instance guard_stable : Stable (λ w, isSaving w = true).
Proof. by repeat split. Qed.

#[local] Instance folder_stable : Stable (λ w, dataDir w = true).
Proof. by repeat split. Qed.

#[local] Instance faults_stable f : Stable (λ w, faults w = f).
Proof. by repeat split. Qed.

#[local] Instance fresh_ids_stable : HostStable fresh_ids.
Proof. by split. Qed.

Lemma keeps_ret {A} P (a : A) : keeps P (ret a).
Proof. by intros w. Qed.

Lemma keeps_throw {A} P e : keeps P (throw (A := A) e).
Proof. by intros w. Qed.

Lemma keeps_get P : keeps P get.
Proof. by intros w. Qed.

Lemma keeps_modify P (f : World → World) :
  (∀ w, P w → P (f w)) → keeps P (modify f).
Proof. intros Hf w. apply Hf. Qed.

Lemma keeps_bind {A B} P (m : Task World A) (k : A → Task World B) :
  keeps P m → (∀ a, keeps P (k a)) → keeps P (bind m k).
Proof.
  intros Hm Hk w HP. specialize (Hm w HP). unfold bind, store in *.
  destruct (m w) as [[a | e] w1]; simpl in *; [by apply Hk | exact Hm].
Qed.

Lemma keeps_try_catch {A} P (m : Task World A) handler :
  keeps P m → (∀ e, keeps P (handler e)) → keeps P (try_catch m handler).
Proof.
  intros Hm Hh w HP. specialize (Hm w HP). unfold try_catch, store in *.
  destruct (m w) as [[a | e] w1]; simpl in *; [exact Hm | by apply Hh].
Qed.

Ltac keeps_step :=
  first
    [ assumption
    | solve [auto]
    | progress intros
    | apply keeps_ret | apply keeps_throw | apply keeps_get
    | apply keeps_bind
    | apply keeps_try_catch
    | apply keeps_modify; intros ? ?;
        first [ by apply stable_db | by apply stable_sql
              | by apply stable_next_id | by apply stable_trace
              | by apply stable_dbFile | by apply stable_dataDir
              | by apply stable_isSaving | done ]
    | match goal with
      | |- keeps _ (if ?b then _ else _) => destruct b
      | |- keeps _ (match ?x with _ => _ end) => destruct x
      | |- keeps _ (let '(_, _) := ?x in _) => destruct x
      end ].

Ltac keeps_all := repeat keeps_step.

Section KeepsHostStable.
Context (P : World → Prop) `{!HostStable P}.

Lemma keeps_emit e : keeps P (emit e).
Proof. unfold emit. keeps_all. Qed.

Lemma keeps_loadWasm : keeps P loadWasm.
Proof. unfold loadWasm, initSqlJs, emit. keeps_all. Qed.

Lemma keeps_writeBinary data : keeps P (writeBinary data).
Proof. unfold writeBinary, emit. keeps_all. Qed.

Lemma keeps_createFolder : keeps P createFolder.
Proof. unfold createFolder, emit. keeps_all. Qed.

(** [save] and [initDb] keep [P] as soon as the steps on the database
    object do. *)
Lemma keeps_save_with_from init creating :
  keeps P init → keeps P (save_with revision init creating).
Proof.
  intros Hinit. unfold save_with.
  pose proof keeps_emit. pose proof keeps_writeBinary.
  pose proof keeps_createFolder. keeps_all.
Qed.

Lemma keeps_initDb_from :
  (∀ (rest : Instance → Task World (option Instance)),
     (∀ inst, keeps P (rest inst)) →
     keeps P (bind (new_Database db_new)
                (λ inst, bind (modify (set_db (Some inst)))
                           (λ _, rest inst)))) →
  (∀ q params, keeps P (this_db_exec q params)) →
  keeps P (initDb revision).
Proof.
  intros Hnew Hexec. unfold initDb, initDb_with.
  pose proof keeps_emit. pose proof keeps_loadWasm.
  pose proof (λ c, keeps_save_with_from (ret None) c (keeps_ret P None)).
  apply keeps_try_catch; [| keeps_all].
  apply keeps_bind; [keeps_all | intros _].
  apply Hnew. keeps_all.
Qed.

End KeepsHostStable.

Section KeepsStable.
Context (P : World → Prop) `{!Stable P}.

Lemma keeps_new_Database content : keeps P (new_Database content).
Proof. intros w HP. by apply stable_next_id. Qed.

Lemma keeps_this_db_exec q params : keeps P (this_db_exec q params).
Proof. unfold this_db_exec. keeps_all. Qed.

Lemma keeps_initDb : keeps P (initDb revision).
Proof.
  apply keeps_initDb_from; [apply _ | | apply keeps_this_db_exec].
  intros rest Hrest. pose proof keeps_new_Database. keeps_all.
Qed.

Lemma keeps_save creating : keeps P (save revision creating).
Proof. apply keeps_save_with_from; [apply _ | apply keeps_initDb]. Qed.

End KeepsStable.

(** [initDb] catches everything. *)
Lemma initDb_returns w : ∃ r, outcome (initDb revision w) = Returned r.
Proof.
  unfold initDb, initDb_with, try_catch, outcome.
  match goal with |- context [match ?body w with _ => _ end] =>
    destruct (body w) as [[r | e] w'] end; simpl; eauto.
Qed.

(** A save on an initialised repository that the host does not refuse:
    it returns, the guard is set, and the file holds the image exported
    from the database as it was when [save] was called. *)
Lemma save_writes w creating inst :
  db w = Some inst →
  write_fails (faults w) = false →
  dataDir w = true ∨ mkdir_fails (faults w) = false →
  ∃ w',
    save revision creating w = (Returned tt, w')
    ∧ isSaving w' = true
    ∧ dbFile w' = Some (db_export (inst_db inst))
    ∧ ∃ earlier, trace w' = earlier ++ [WriteBinary (db_export (inst_db inst))].
Proof.
  intros Hdb Hwrite Hfolder.
  set (w1 := set_isSaving true w).
  set (init := if negb creating && negb (dbExists w1)
               then bind (initDb revision) (λ _, ret tt) else ret tt).
  assert (Hinit : ∃ w2, init w1 = (Returned tt, w2)).
  { subst init. destruct (negb creating && negb (dbExists w1)).
    - unfold bind, ret. destruct (initDb_returns w1) as [r Hr].
      unfold outcome in Hr. destruct (initDb revision w1) as [o w2].
      simpl in Hr. subst o. eauto.
    - unfold ret. eauto. }
  destruct Hinit as [w2 Hw2].
  assert (Hkeeps : ∀ P, Stable P → P w1 → P w2).
  { intros P HP H1. change w2 with (store (Returned tt, w2)). rewrite <- Hw2.
    revert H1. generalize w1. change (keeps P init). subst init.
    pose proof (keeps_initDb P). keeps_all. }
  assert (Hguard : isSaving w2 = true)
    by (by apply (Hkeeps (λ w', isSaving w' = true) _)).
  assert (Hfaults : faults w2 = faults w)
    by (by apply (Hkeeps (λ w', faults w' = faults w) _)).
  assert (Hdir : dataDir w = true → dataDir w2 = true)
    by (intros; by apply (Hkeeps (λ w', dataDir w' = true) _)).
  unfold save, save_with. run_task. rewrite Hdb.
  fold w1. fold init. rewrite Hw2.
  unfold createFolder, writeBinary. run_task.
  destruct (dataDir w2) eqn:Hdir2; simpl.
  - rewrite Hfaults, Hwrite. simpl. eauto 6.
  - destruct Hfolder as [Hdirw | Hmk]; [specialize (Hdir Hdirw); congruence |].
    rewrite Hfaults, Hmk. simpl. rewrite Hfaults, Hwrite. simpl. eauto 6.
Qed.

(** The first statement of the [try] block of [save] sets the guard and
    nothing after it clears it. *)
Lemma guard_set_first {A B} (rest : Task World A) handler
    (k : A → Task World B) w :
  keeps (λ w', isSaving w' = true) rest →
  (∀ e, keeps (λ w', isSaving w' = true) (handler e)) →
  (∀ a, keeps (λ w', isSaving w' = true) (k a)) →
  isSaving (store (bind (try_catch
                           (bind (modify (set_isSaving true)) (λ _, rest))
                           handler) k w)) = true.
Proof.
  intros Hrest Hhandler Hk.
  change (isSaving (store (bind (try_catch rest handler) k
                                (set_isSaving true w))) = true).
  by apply (keeps_bind (λ w', isSaving w' = true));
    [apply keeps_try_catch |..].
Qed.

(** Whatever becomes of it, a save on an initialised repository leaves
    the guard set. *)
Lemma save_sets_guard w creating inst :
  db w = Some inst → isSaving (store (save revision creating w)) = true.
Proof.
  intros Hdb. unfold save, save_with. unfold bind at 1. unfold get at 1.
  cbv beta iota. rewrite Hdb.
  pose proof (keeps_emit (λ w', isSaving w' = true)).
  pose proof (keeps_writeBinary (λ w', isSaving w' = true)).
  pose proof (keeps_createFolder (λ w', isSaving w' = true)).
  pose proof (keeps_initDb (λ w', isSaving w' = true)).
  apply guard_set_first; keeps_all.
Qed.

(** A save that returns was made on an initialised repository and has
    set the guard. *)
Lemma save_completed_guard w creating w' :
  save revision creating w = (Returned tt, w') → isSaving w' = true.
Proof.
  intros Hsave. destruct (db w) as [inst |] eqn:Hdb.
  - change w' with (store (Returned tt, w')). rewrite <- Hsave.
    by apply save_sets_guard with inst.
  - unfold save, save_with in Hsave. run_task. rewrite Hdb in Hsave.
    discriminate.
Qed.

(** *** Identities of database objects *)

Lemma fresh_ids_this_db_exec q params : keeps fresh_ids (this_db_exec q params).
Proof.
  intros w Hfresh. unfold this_db_exec. run_task.
  destruct (db w) as [inst |] eqn:Hdb; [| exact Hfresh].
  destruct (db_exec (inst_db inst) q params) as [[results | error] content];
    simpl; intros inst' [= <-]; simpl; by apply Hfresh.
Qed.

Lemma fresh_ids_new_Database {A} content (rest : Instance → Task World A) :
  (∀ inst, keeps fresh_ids (rest inst)) →
  keeps fresh_ids (bind (new_Database content)
                     (λ inst, bind (modify (set_db (Some inst)))
                                (λ _, rest inst))).
Proof.
  intros Hrest w _. unfold new_Database. run_task.
  apply Hrest. intros inst [= <-]. simpl. lia.
Qed.

Lemma fresh_ids_save creating : keeps fresh_ids (save revision creating).
Proof.
  apply keeps_save_with_from; [apply _ |].
  apply keeps_initDb_from; [apply _ | | apply fresh_ids_this_db_exec].
  intros rest. apply fresh_ids_new_Database.
Qed.

(** *** Reload *)

(** A reload that the host and the engine do not refuse: the repository
    holds a new database object, built from the bytes on disk. *)
Lemma reloadDb_success w bytes content :
  sql w = true ∨ wasm_fails (faults w) = false →
  read_fails (faults w) = false →
  dbFile w = Some bytes →
  db_open bytes = Some content →
  ∃ w',
    reloadDb w = (Returned (Some (mkInstance (next_id w) content)), w')
    ∧ db w' = Some (mkInstance (next_id w) content)
    ∧ next_id w' = S (next_id w)
    ∧ trace w' = trace w ++ [ReadBinary]
    ∧ isSaving w' = isSaving w ∧ dbFile w' = dbFile w.
Proof.
  intros Hwasm Hread Hfile Hopen.
  unfold reloadDb, loadWasm, initSqlJs, readBinary, new_Database_from,
    new_Database.
  run_task.
  destruct (sql w) eqn:Hsql; simpl.
  - rewrite Hread, Hfile. simpl. rewrite Hopen. simpl. eauto 10.
  - destruct Hwasm as [? | Hwasm]; [discriminate |].
    rewrite Hwasm. simpl. rewrite Hread, Hfile. simpl. rewrite Hopen. simpl.
    eauto 10.
Qed.

(** [reloadDb] catches everything. *)
Lemma reloadDb_returns w : ∃ r, outcome (reloadDb w) = Returned r.
Proof.
  unfold reloadDb, try_catch, outcome.
  match goal with |- context [match ?body w with _ => _ end] =>
    destruct (body w) as [[r | e] w'] end; simpl; eauto.
Qed.

(** *** The change handler *)

Lemma handleFileChange_guarded w file :
  path file = dbFilePath w → deleted file = false → isSaving w = true →
  handleFileChange file w = (Returned tt, set_isSaving false w).
Proof.
  intros Hpath Hdel Hguard. unfold handleFileChange. run_task.
  by rewrite bool_decide_eq_true_2, Hdel, Hguard.
Qed.

Lemma handleFileChange_unguarded w file :
  path file = dbFilePath w → deleted file = false → isSaving w = false →
  handleFileChange file w = (Returned tt, store (reloadDb w)).
Proof.
  intros Hpath Hdel Hguard. unfold handleFileChange. run_task.
  rewrite bool_decide_eq_true_2, Hdel, Hguard by done. simpl.
  destruct (reloadDb_returns w) as [r Hr]. unfold outcome in Hr.
  destruct (reloadDb w) as [o w']. simpl in Hr. by subst o.
Qed.

(** Notifications for another path and deletions do nothing. *)
Lemma handleFileChange_ignored w file :
  path file ≠ dbFilePath w ∨ deleted file = true →
  handleFileChange file w = (Returned tt, w).
Proof.
  intros Hignored. unfold handleFileChange. run_task.
  destruct Hignored as [Hpath | ->].
  - by rewrite bool_decide_eq_false_2.
  - by rewrite orb_true_r.
Qed.

(** C1. After a save that completed, the guard is set.  The first
    notification of a change (not a deletion) of the database file then
    only clears the guard: it returns without reloading, and the
    repository holds the same database object, the trace records no read.
    A second such notification runs [reloadDb]; when the engine runtime is
    available and the file is read and accepted by the engine, the
    repository then holds a new database object built from the bytes on
    disk, different from the one it held. *)
Theorem self_write_suppression w0 creating w1 file :
  save revision creating w0 = (Returned tt, w1) →
  path file = dbFilePath w1 →
  deleted file = false →
  let w2 := store (handleFileChange file w1) in
  let w3 := store (handleFileChange file w2) in
  isSaving w1 = true
  ∧ handleFileChange file w1 = (Returned tt, set_isSaving false w1)
  ∧ db w2 = db w1 ∧ trace w2 = trace w1 ∧ isSaving w2 = false
  ∧ handleFileChange file w2 = (Returned tt, store (reloadDb w2))
  ∧ ∀ bytes content,
      sql w1 = true ∨ wasm_fails (faults w1) = false →
      read_fails (faults w1) = false →
      dbFile w1 = Some bytes →
      db_open bytes = Some content →
      db w3 = Some (mkInstance (next_id w1) content)
      ∧ trace w3 = trace w1 ++ [ReadBinary]
      ∧ (fresh_ids w0 → db w3 ≠ db w1).
Proof.
  intros Hsave Hpath Hdel.
  pose proof (save_completed_guard _ _ _ Hsave) as Hguard.
  pose proof (handleFileChange_guarded _ _ Hpath Hdel Hguard) as Hfirst.
  cbv zeta. rewrite Hfirst.
  change (store (Returned (), set_isSaving false w1))
    with (set_isSaving false w1).
  set (w2 := set_isSaving false w1).
  assert (Hsecond : handleFileChange file w2 = (Returned tt, store (reloadDb w2)))
    by (by apply handleFileChange_unguarded).
  split; [exact Hguard |]. do 4 (split; [reflexivity |]).
  split; [exact Hsecond |].
  intros bytes content Hwasm Hread Hfile Hopen.
  destruct (reloadDb_success w2 bytes content)
    as (w' & Hrun & Hdb & _ & Htr & _); try assumption.
  rewrite Hsecond, Hrun. simpl. rewrite Hdb, Htr. repeat split.
  intros Hfresh Heq.
  assert (Hfresh1 : fresh_ids w1).
  { change w1 with (store (Returned tt, w1)). rewrite <- Hsave.
    by apply fresh_ids_save. }
  symmetry in Heq. apply Hfresh1 in Heq. simpl in Heq. lia.
Qed.

(** *** Mutation and read access *)

Lemma execSql_keeps_db w q ps inst :
  db w = Some inst →
  ∃ content, db (store (execSql q ps w))
             = Some (mkInstance (inst_id inst) content).
Proof.
  intros Hdb.
  destruct (db_exec (inst_db inst) q (coerceParams ps)) as [r content] eqn:Hexec.
  rewrite (execSql_run _ _ _ _ _ _ Hdb Hexec).
  destruct (answer_caught r); simpl; eauto.
Qed.

(** C6. [mutate] runs the statement on the engine and then [save],
    whatever became of the statement: on a repository without database
    [save] refuses and [mutate] throws its error; otherwise the guard is
    set afterwards, and unless the host refuses the folder or the write,
    [mutate] returns what the engine answered, formatted, and the file holds
    the image exported from the database as the engine left it, written
    last; in every case [mutate] is [save] run on the repository as the
    engine's [exec] left it.  [query] runs the statement on the engine as well: it returns the
    first of the formatted results of the engine's answer and the database
    object holds what the engine left; it leaves the folder, the file and
    the guard as they were and writes nothing. *)
Theorem mutate_saves_query_does_not w q ps :
  (db w = None → outcome (mutate revision q ps w) = Thrown not_initialized)
  ∧ (∀ inst r content,
       db w = Some inst →
       db_exec (inst_db inst) q (coerceParams ps) = (r, content) →
       isSaving (store (mutate revision q ps w)) = true
       ∧ (write_fails (faults w) = false →
          dataDir w = true ∨ mkdir_fails (faults w) = false →
          ∃ w' earlier,
            mutate revision q ps w = (Returned (rows_of_answer r), w')
            ∧ dbFile w' = Some (db_export content)
            ∧ trace w' = earlier ++ [WriteBinary (db_export content)])
       ∧ (let after :=
            if answer_caught r
            then set_trace (trace w ++ [ConsoleError "Database query failed"])
                   (set_db (Some (mkInstance (inst_id inst) content)) w)
            else set_db (Some (mkInstance (inst_id inst) content)) w in
          mutate revision q ps w
          = bind (save revision false) (λ _, ret (rows_of_answer r)) after)
       ∧ outcome (query q ps w) = Returned (rows_of_answer r !! 0)
       ∧ db (store (query q ps w)) = Some (mkInstance (inst_id inst) content))
  ∧ (let w' := store (query q ps w) in
     isSaving w' = isSaving w ∧ dataDir w' = dataDir w ∧ dbFile w' = dbFile w
     ∧ (trace w' = trace w
        ∨ trace w' = trace w ++ [ConsoleError "Database query failed"])).
Proof.
  destruct (execSql_returns w q ps) as (first & rest & after & Hrun).
  pose proof (execSql_frame w q ps) as Hframe. rewrite Hrun in Hframe.
  simpl in Hframe. destruct Hframe as (Hg & Hd & Hf & Hfaults & Htrace).
  split; [| split].
  - intros Hdb. rewrite (execSql_no_db _ _ _ Hdb) in Hrun.
    injection Hrun as <- <- <-.
    unfold mutate. run_task. rewrite (execSql_no_db _ _ _ Hdb).
    unfold save, save_with. run_task. by rewrite Hdb.
  - intros inst r content Hdb Hexec.
    pose proof (execSql_run _ _ _ _ _ _ Hdb Hexec) as Hsql.
    assert (Hafter : db after = Some (mkInstance (inst_id inst) content)).
    { rewrite Hsql in Hrun. injection Hrun as _ <-.
      by destruct (answer_caught r). }
    assert (Hrows : first :: rest = rows_of_answer r).
    { rewrite Hsql in Hrun. by injection Hrun as <- _. }
    split; [| split; [| split; [| split]]].
    + pose proof (save_sets_guard after false _ Hafter) as Hguard.
      unfold mutate. run_task. rewrite Hrun.
      by destruct (save revision false after) as [[[] | error] w''].
    + intros Hwrite Hfolder.
      destruct (save_writes after false _ Hafter)
        as (w' & Hsave & _ & Hfile & earlier & Hlast).
      { by rewrite Hfaults. }
      { by rewrite Hd, Hfaults. }
      exists w', earlier. split; [| by split].
      unfold mutate, bind, ret. rewrite Hrun. cbv beta iota.
      rewrite Hsave. cbv beta iota. congruence.
    + cbv zeta. unfold mutate, bind. by rewrite Hsql.
    + rewrite (query_of_execSql _ _ _ _ _ Hrun). by rewrite <- Hrows.
    + by rewrite (query_of_execSql _ _ _ _ _ Hrun).
  - rewrite (query_run _ _ _ _ _ _ Hrun). simpl. auto.
Qed.

(** *** Startup *)

Variable normalizePath : string → string.

(** The branch of [start] for an existing file: a load that fails makes
    [start] throw. *)
Lemma start_load_failure_throws w filePath schemaText bytes :
  dataDir w = true →
  dbFile w = Some bytes →
  wasm_fails (faults w) = true ∨ read_fails (faults w) = true →
  outcome (start revision normalizePath filePath schemaText w)
  = Thrown (load_failed filePath).
Proof.
  intros Hdir Hfile Hfail.
  unfold start, construct, dbExists, loadDb, reloadDb, loadWasm, initSqlJs,
    readBinary, new_Database_from.
  run_task. rewrite Hdir, Hfile. simpl.
  destruct (wasm_fails (faults w)) eqn:Hwasm; simpl; [reflexivity |].
  destruct (read_fails (faults w)) eqn:Hread; simpl; [reflexivity |].
  destruct Hfail; discriminate.
Qed.

(** The branch of [start] for an absent file: the result of [initDb] is
    dropped, so when the engine runtime cannot be started [start] returns
    all the same, with a repository that holds no database and with no file
    written. *)
Lemma start_init_failure_returns w filePath schemaText :
  dbExists w = false →
  wasm_fails (faults w) = true →
  ∃ w',
    start revision normalizePath filePath schemaText w = (Returned tt, w')
    ∧ db w' = None
    ∧ dbFile w' = dbFile w
    ∧ trace w' = trace w ++ [ConsoleError "Failed to initialize WASM";
                             ConsoleError "initDb failed"; RegisterEvent].
Proof.
  intros Hexists Hwasm.
  unfold start, construct, initDb, initDb_with, loadWasm, initSqlJs.
  unfold dbExists in *. run_task. rewrite Hexists. simpl.
  rewrite Hwasm. simpl.
  eexists. split; [reflexivity |]. simpl. rewrite <- !app_assoc. by simpl.
Qed.


(** *** Further properties of the save / reload protocol *)

(** [save(true)] never reaches its call of [initDb]. *)
Lemma save_with_creating init1 init2 w :
  save_with revision init1 true w = save_with revision init2 true w.
Proof. unfold save_with. run_task. by destruct (db w). Qed.

(** A save that does not go through [initDb] and that the host does not
    refuse, step by step. *)
Lemma save_direct_run w creating inst :
  db w = Some inst →
  creating = true ∨ dbExists w = true →
  write_fails (faults w) = false →
  dataDir w = true ∨ mkdir_fails (faults w) = false →
  ∃ w',
    save revision creating w = (Returned tt, w')
    ∧ db w' = db w ∧ isSaving w' = true ∧ dataDir w' = true
    ∧ dbFile w' = Some (db_export (inst_db inst))
    ∧ sql w' = sql w ∧ next_id w' = next_id w ∧ faults w' = faults w
    ∧ dbFilePath w' = dbFilePath w ∧ schema w' = schema w
    ∧ trace w' = trace w ++ (if dataDir w then [] else [CreateFolder])
                 ++ [WriteBinary (db_export (inst_db inst))].
Proof.
  intros Hdb Hdirect Hwrite Hfolder.
  assert (Hskip : negb creating && negb (dbExists (set_isSaving true w)) = false).
  { destruct Hdirect as [-> | Hex]; [reflexivity |].
    change (dbExists (set_isSaving true w)) with (dbExists w).
    rewrite Hex. by destruct creating. }
  unfold save, save_with, createFolder, writeBinary. run_task.
  rewrite Hdb, Hskip. simpl.
  destruct (dataDir w) eqn:Hdir; simpl.
  - rewrite Hwrite. simpl. eexists. split; [reflexivity |]. simpl.
    by repeat split.
  - destruct Hfolder as [? | Hmk]; [discriminate |].
    rewrite Hmk. simpl. rewrite Hwrite. simpl.
    eexists. split; [reflexivity |]. simpl. rewrite <- app_assoc.
    by repeat split.
Qed.

(** A fresh initialization that neither the host nor the engine refuses. *)
Lemma initDb_success w results content :
  wasm_fails (faults w) = false →
  write_fails (faults w) = false →
  dataDir w = true ∨ mkdir_fails (faults w) = false →
  db_exec db_new (schema w) [] = (Returned results, content) →
  ∃ w',
    initDb revision w = (Returned (Some (mkInstance (next_id w) content)), w')
    ∧ db w' = Some (mkInstance (next_id w) content)
    ∧ isSaving w' = true ∧ dataDir w' = true
    ∧ dbFile w' = Some (db_export content)
    ∧ sql w' = sql w ∧ next_id w' = S (next_id w) ∧ faults w' = faults w
    ∧ dbFilePath w' = dbFilePath w ∧ schema w' = schema w
    ∧ trace w' = trace w ++ (if dataDir w then [] else [CreateFolder])
                 ++ [WriteBinary (db_export content);
                     ConsoleLog "Incremental Reading database initialized"].
Proof.
  intros Hwasm Hwrite Hfolder Hschema.
  set (w2 := set_db (Some (mkInstance (next_id w) content))
               (set_db (Some (mkInstance (next_id w) db_new))
                  (set_next_id (S (next_id w)) w))).
  destruct (save_direct_run w2 true (mkInstance (next_id w) content))
    as (w3 & Hsave & Hdb3 & Hg3 & Hd3 & Hf3 & Hs3 & Hn3 & Hfa3 & Hp3 & Hsc3 & Ht3);
    auto.
  unfold save in Hsave. rewrite (save_with_creating _ (ret None)) in Hsave.
  unfold initDb, initDb_with, loadWasm, initSqlJs, new_Database, this_db_exec.
  run_task. rewrite Hwasm. simpl. rewrite Hschema. simpl.
  fold w2. rewrite Hsave. simpl.
  eexists. split; [by rewrite Hdb3 |]. simpl.
  rewrite Hdb3, Hg3, Hd3, Hf3, Hs3, Hn3, Hfa3, Hp3, Hsc3, Ht3. simpl.
  rewrite <- !app_assoc. by repeat split.
Qed.

(** X1. Notifications for other paths and notifications of a deletion
    change nothing, in any number: they neither reload nor use up the
    guard, so the echo of the last save that arrives after them is still
    suppressed. *)
Theorem foreign_notifications_keep_guard w files echo :
  Forall (λ file, path file ≠ dbFilePath w ∨ deleted file = true) files →
  path echo = dbFilePath w → deleted echo = false → isSaving w = true →
  notify_all files w = (Returned tt, w)
  ∧ notify_all (files ++ [echo]) w = (Returned tt, set_isSaving false w).
Proof.
  intros Hforeign Hpath Hdel Hguard.
  induction Hforeign as [| file files Hfile _ [IH1 IH2]]; simpl.
  - split; [reflexivity |]. unfold bind.
    by rewrite (handleFileChange_guarded _ _ Hpath Hdel Hguard).
  - unfold bind. rewrite (handleFileChange_ignored _ _ Hfile). by split.
Qed.

(** X2. A reload that fails because the engine runtime does not start,
    or because the file cannot be read or is missing, returns [null] after
    logging the failure and leaves the repository on the database object it
    had; the change handler then returns normally, so the external change
    goes unnoticed by the caller. *)
Theorem reloadDb_failure_keeps_database w :
  (sql w = false ∧ wasm_fails (faults w) = true)
  ∨ read_fails (faults w) = true
  ∨ dbFile w = None →
  ∃ w',
    reloadDb w = (Returned None, w')
    ∧ db w' = db w ∧ next_id w' = next_id w
    ∧ isSaving w' = isSaving w ∧ dbFile w' = dbFile w
    ∧ last (trace w') = Some (ConsoleError "Failed to reload database")
    ∧ ∀ file, path file = dbFilePath w → deleted file = false →
        isSaving w = false →
        handleFileChange file w = (Returned tt, w').
Proof.
  intros Hfail.
  assert (Hrun : ∃ w', reloadDb w = (Returned None, w')
                       ∧ db w' = db w ∧ next_id w' = next_id w
                       ∧ isSaving w' = isSaving w ∧ dbFile w' = dbFile w
                       ∧ last (trace w')
                         = Some (ConsoleError "Failed to reload database")).
  { unfold reloadDb, loadWasm, initSqlJs, readBinary, new_Database_from.
    run_task.
    destruct (sql w) eqn:Hsql, (wasm_fails (faults w)) eqn:Hwasm,
      (read_fails (faults w)) eqn:Hread, (dbFile w) as [bytes |] eqn:Hfile;
      simpl; rewrite ?Hread, ?Hfile; simpl;
      try (eexists; split; [reflexivity |]; simpl; rewrite ?last_snoc;
           by repeat split);
      (exfalso; destruct Hfail as [[? ?] | [? | ?]]; congruence). }
  destruct Hrun as (w' & Hrun & Hrest). exists w'.
  split; [exact Hrun |]. repeat (split; [apply Hrest |]).
  intros file Hpath Hdel Hguard.
  rewrite (handleFileChange_unguarded _ _ Hpath Hdel Hguard). by rewrite Hrun.
Qed.

(** X3. [reloadDb] never throws, never writes the file and never
    touches the guard, the folder or the file; when it returns a database
    object, that object is new and its content is exactly the engine's
    reading of the bytes on disk: no schema statement is run on it. *)
Theorem reloadDb_reads_only w :
  let w' := store (reloadDb w) in
  (∃ r, outcome (reloadDb w) = Returned r)
  ∧ isSaving w' = isSaving w ∧ dataDir w' = dataDir w ∧ dbFile w' = dbFile w
  ∧ (∀ data, WriteBinary data ∈ trace w' → WriteBinary data ∈ trace w)
  ∧ (∀ inst, outcome (reloadDb w) = Returned (Some inst) →
       ∃ bytes content,
         dbFile w = Some bytes ∧ db_open bytes = Some content
         ∧ inst = mkInstance (next_id w) content ∧ db w' = Some inst).
Proof.
  cbv zeta. split; [apply reloadDb_returns |].
  unfold reloadDb, loadWasm, initSqlJs, readBinary, new_Database_from,
    new_Database.
  run_task.
  destruct (sql w) eqn:Hsql, (wasm_fails (faults w)) eqn:Hwasm,
    (read_fails (faults w)) eqn:Hread, (dbFile w) as [bytes |] eqn:Hfile;
    simpl; rewrite ?Hread, ?Hfile; simpl;
    try destruct (db_open bytes) as [content |] eqn:Hopen; simpl;
    do 3 (split; [congruence |]);
    (split;
     [ intros data Hin;
       repeat (apply elem_of_app in Hin as [Hin | Hin]);
       try (apply list_elem_of_singleton in Hin; discriminate);
       exact Hin
     | intros inst Hinst; inversion Hinst; subst; eauto 10 ]).
Qed.

(** X4. Startup without a database (the folder or the file is absent),
    when the host and the engine refuse nothing: [start] returns a
    repository holding a new database on which the schema has been run,
    the folder exists, the file holds the image of that database (whatever
    was at that path before), the guard is left set by this first save,
    the engine factory is not cached, and the change listener is
    registered last. *)
Theorem start_fresh_initializes w filePath schemaText results content :
  dbExists w = false →
  wasm_fails (faults w) = false →
  write_fails (faults w) = false →
  dataDir w = true ∨ mkdir_fails (faults w) = false →
  db_exec db_new schemaText [] = (Returned results, content) →
  ∃ w',
    start revision normalizePath filePath schemaText w = (Returned tt, w')
    ∧ db w' = Some (mkInstance (next_id w) content)
    ∧ dataDir w' = true
    ∧ dbFile w' = Some (db_export content)
    ∧ isSaving w' = true
    ∧ sql w' = false
    ∧ dbFilePath w' = normalizePath filePath
    ∧ trace w' = trace w ++ (if dataDir w then [] else [CreateFolder])
                 ++ [WriteBinary (db_export content);
                     ConsoleLog "Incremental Reading database initialized";
                     RegisterEvent].
Proof.
  intros Hexists Hwasm Hwrite Hfolder Hschema.
  set (repo := construct normalizePath filePath schemaText w).
  destruct (initDb_success repo results content)
    as (w1 & Hinit & Hdb & Hg & Hd & Hf & Hs & _ & _ & Hp & _ & Ht); auto.
  unfold start, bind, modify, get, emit. cbv beta iota. fold repo.
  change (dbExists repo) with (dbExists w). rewrite Hexists, Hinit.
  eexists. split; [reflexivity |]. simpl.
  rewrite Hdb, Hg, Hd, Hf, Hs, Hp, Ht. simpl. rewrite <- !app_assoc.
  by repeat split.
Qed.

(** X5. Startup on an existing database file, when the host and the
    engine refuse nothing: [start] returns a repository holding a new
    database read from the file, on which the schema has been run again,
    and the file has been rewritten with the image of that database; the
    guard is left set and the change listener is registered last. *)
Theorem start_existing_loads w filePath schemaText bytes loaded results content :
  dataDir w = true →
  dbFile w = Some bytes →
  wasm_fails (faults w) = false →
  read_fails (faults w) = false →
  write_fails (faults w) = false →
  db_open bytes = Some loaded →
  db_exec loaded schemaText [] = (Returned results, content) →
  ∃ w',
    start revision normalizePath filePath schemaText w = (Returned tt, w')
    ∧ db w' = Some (mkInstance (next_id w) content)
    ∧ dbFile w' = Some (db_export content)
    ∧ isSaving w' = true
    ∧ sql w' = true
    ∧ trace w' = trace w
                 ++ [ReadBinary; WriteBinary (db_export content);
                     ConsoleLog "Incremental Reading database loaded";
                     RegisterEvent].
Proof.
  intros Hdir Hfile Hwasm Hread Hwrite Hopen Hschema.
  set (repo := construct normalizePath filePath schemaText w).
  destruct (reloadDb_success repo bytes loaded)
    as (w1 & Hreload & Hdb1 & Hn1 & Ht1 & Hg1 & Hf1); auto.
  assert (Hframe1 : dataDir w1 = true ∧ faults w1 = faults w
                    ∧ schema w1 = schemaText ∧ sql w1 = true).
  { change w1 with (store (Returned (Some (mkInstance (next_id repo) loaded)), w1)).
    rewrite <- Hreload. clear Hreload.
    unfold reloadDb, loadWasm, initSqlJs, readBinary, new_Database_from,
      new_Database.
    run_task. rewrite Hwasm. simpl. rewrite Hread, Hfile. simpl.
    rewrite Hopen. simpl. by repeat split. }
  destruct Hframe1 as (Hd1 & Hfa1 & Hsc1 & Hs1).
  set (w2 := set_db (Some (mkInstance (next_id w) content)) w1).
  destruct (save_direct_run w2 false (mkInstance (next_id w) content))
    as (w3 & Hsave & Hdb3 & Hg3 & _ & Hf3 & Hs3 & _ & _ & _ & _ & Ht3);
    try reflexivity.
  { right. unfold dbExists. simpl. rewrite Hd1, Hf1. simpl. by rewrite Hfile. }
  { simpl. by rewrite Hfa1. }
  { left. exact Hd1. }
  unfold start, loadDb, updateSchema, this_db_exec, bind, try_catch, modify,
    get, emit, ret. cbv beta iota. fold repo.
  assert (Hex : dbExists repo = true).
  { unfold dbExists. simpl. by rewrite Hdir, Hfile. }
  change (next_id repo) with (next_id w) in *.
  rewrite Hex, Hreload. cbv beta iota. rewrite Hsc1, Hdb1.
  cbn [inst_db inst_id]. rewrite Hschema. unfold modify. cbv beta iota.
  fold w2. rewrite Hsave.
  eexists. split; [reflexivity |]. simpl.
  rewrite Hdb3, Hf3, Hg3, Hs3, Ht3. simpl. rewrite Hd1, Ht1, Hs1. simpl.
  rewrite <- !app_assoc. by repeat split.
Qed.

(** X6. Startup on an existing database file that cannot be loaded
    (the engine runtime does not start, the read is refused, or the engine
    rejects the schema on the database opened from the file, as it does on
    a file that is not a database): [start] throws its load error, which
    names the path as it was passed, the file is left as it was, nothing is
    written and no change listener is registered. *)
Theorem start_existing_load_failure_throws w filePath schemaText bytes :
  dataDir w = true →
  dbFile w = Some bytes →
  wasm_fails (faults w) = true
  ∨ read_fails (faults w) = true
  ∨ (∃ loaded error content,
       db_open bytes = Some loaded
       ∧ db_exec loaded schemaText [] = (Thrown error, content)) →
  let after := start revision normalizePath filePath schemaText w in
  outcome after = Thrown (load_failed filePath)
  ∧ dbFile (store after) = Some bytes
  ∧ ∃ events,
      trace (store after) = trace w ++ events
      ∧ (RegisterEvent ∉ events)
      ∧ (∀ data, WriteBinary data ∉ events).
Proof.
  intros Hdir Hfile Hfail. cbv zeta.
  unfold start, construct, dbExists, loadDb, updateSchema, this_db_exec,
    reloadDb, loadWasm, initSqlJs, readBinary, new_Database_from, new_Database.
  run_task. rewrite Hdir, Hfile. simpl.
  assert (Hnot : ∀ (events : list Event),
            Forall (λ e, match e with
                         | ConsoleError _ | ReadBinary => True
                         | _ => False
                         end) events →
            (RegisterEvent ∉ events) ∧ (∀ data, WriteBinary data ∉ events)).
  { intros events Hall. rewrite Forall_forall in Hall.
    split; [| intros data]; intros Hin; by apply Hall in Hin. }
  destruct (wasm_fails (faults w)) eqn:Hwasm; simpl.
  { split; [reflexivity |].
    split; [first [reflexivity | exact Hfile] |]. eexists. rewrite <- ?app_assoc.
    split; [reflexivity |]. apply Hnot. by repeat constructor. }
  destruct (read_fails (faults w)) eqn:Hread; simpl.
  { split; [reflexivity |].
    split; [first [reflexivity | exact Hfile] |]. eexists. rewrite <- ?app_assoc.
    split; [reflexivity |]. apply Hnot. by repeat constructor. }
  rewrite ?Hfile. simpl.
  destruct Hfail as [? | [? | (loaded & error & content & Hopen & Hschema)]];
    try discriminate.
  rewrite Hopen. simpl. rewrite Hschema. simpl.
  split; [reflexivity |].
  split; [first [reflexivity | exact Hfile] |]. eexists. rewrite <- ?app_assoc.
  split; [reflexivity |]. apply Hnot. by repeat constructor.
Qed.


(** X8. When the folder is missing and the host refuses to create it,
    [save(true)] writes nothing and leaves the guard set; the first
    revision logs the failure and returns normally, the second logs it and
    throws the host's error. *)
Theorem save_folder_rejection_by_revision w inst :
  db w = Some inst →
  dataDir w = false →
  mkdir_fails (faults w) = true →
  save revision true w
  = (match revision with
     | SaveSwallows => Returned tt
     | SaveRethrows => Thrown (JsError "createFolder rejected")
     end,
     set_trace (trace w ++ [ConsoleError "Failed to save database"])
       (set_isSaving true w)).
Proof.
  intros Hdb Hdir Hmk.
  unfold save, save_with, createFolder. run_task.
  rewrite Hdb. simpl. rewrite Hdir. simpl. rewrite Hmk. simpl.
  by destruct revision.
Qed.

(** X9. A save made after the database file has disappeared (for
    instance a [mutate] after the file was deleted) goes through [initDb]:
    when nothing is refused, the repository afterwards holds a new
    database with only the schema run on it, while the file holds the
    image of the database the repository held when [save] was called.
    Memory and disk differ at that point. *)
Theorem save_after_file_loss_replaces_database w inst results content :
  db w = Some inst →
  dbExists w = false →
  wasm_fails (faults w) = false →
  write_fails (faults w) = false →
  dataDir w = true ∨ mkdir_fails (faults w) = false →
  db_exec db_new (schema w) [] = (Returned results, content) →
  ∃ w',
    save revision false w = (Returned tt, w')
    ∧ db w' = Some (mkInstance (next_id w) content)
    ∧ dbFile w' = Some (db_export (inst_db inst))
    ∧ isSaving w' = true
    ∧ trace w' = trace w ++ (if dataDir w then [] else [CreateFolder])
                 ++ [WriteBinary (db_export content);
                     ConsoleLog "Incremental Reading database initialized";
                     WriteBinary (db_export (inst_db inst))].
Proof.
  intros Hdb Hexists Hwasm Hwrite Hfolder Hschema.
  set (w1 := set_isSaving true w).
  destruct (initDb_success w1 results content)
    as (w2 & Hinit & Hdb2 & Hg2 & Hd2 & _ & _ & _ & Hfa2 & _ & _ & Ht2); auto.
  unfold save, save_with, writeBinary. run_task. rewrite Hdb.
  fold w1. change (dbExists w1) with (dbExists w). rewrite Hexists. simpl.
  rewrite Hinit. simpl. rewrite Hd2. simpl. rewrite Hfa2. simpl.
  rewrite Hwrite. simpl.
  eexists. split; [reflexivity |]. simpl. rewrite Hdb2, Hg2, Ht2. simpl.
  rewrite <- !app_assoc. by repeat split.
Qed.

(** X10. Round trip of a save and a reload: after a save on a
    repository whose file exists, a reload gives a new database object
    whose content is the engine's reading of the image just exported; when
    the engine reads back what it exports, the content is the one the
    repository held before the save. *)
Theorem save_then_reload_round_trip w inst content :
  db w = Some inst →
  dbExists w = true →
  sql w = true ∨ wasm_fails (faults w) = false →
  read_fails (faults w) = false →
  write_fails (faults w) = false →
  db_open (db_export (inst_db inst)) = Some content →
  ∃ w',
    bind (save revision false) (λ _, reloadDb) w
    = (Returned (Some (mkInstance (next_id w) content)), w')
    ∧ db w' = Some (mkInstance (next_id w) content)
    ∧ dbFile w' = Some (db_export (inst_db inst))
    ∧ (content = inst_db inst → inst_db <$> db w' = inst_db <$> db w).
Proof.
  intros Hdb Hexists Hwasm Hread Hwrite Hopen.
  assert (Hdir : dataDir w = true).
  { unfold dbExists in Hexists. by destruct (dataDir w). }
  destruct (save_direct_run w false inst)
    as (w1 & Hsave & _ & _ & _ & Hf1 & Hs1 & Hn1 & Hfa1 & _ & _ & _); auto.
  destruct (reloadDb_success w1 (db_export (inst_db inst)) content)
    as (w2 & Hreload & Hdb2 & _ & _ & _ & Hf2);
    [by rewrite Hs1, Hfa1 | by rewrite Hfa1 | exact Hf1 | exact Hopen |].
  rewrite Hn1 in Hreload, Hdb2.
  exists w2. unfold bind. rewrite Hsave.
  split; [exact Hreload |]. split; [exact Hdb2 |].
  split; [by rewrite Hf2 |].
  intros ->. by rewrite Hdb2, Hdb.
Qed.

(** X11. The repository a failed fresh initialization leaves behind:
    when the file is absent and the engine runtime does not start, [start]
    returns, and on the repository it returns every [query] returns the
    empty array and every [mutate] throws the not-initialized error of
    [save]. *)
Theorem start_without_runtime_then_use w filePath schemaText q ps :
  dbExists w = false →
  wasm_fails (faults w) = true →
  let repo := store (start revision normalizePath filePath schemaText w) in
  outcome (start revision normalizePath filePath schemaText w) = Returned tt
  ∧ outcome (query q ps repo) = Returned (Some [])
  ∧ outcome (mutate revision q ps repo) = Thrown not_initialized.
Proof.
  intros Hexists Hwasm. cbv zeta.
  destruct (start_init_failure_returns w filePath schemaText Hexists Hwasm)
    as (w' & Hstart & Hdb & _).
  rewrite Hstart. simpl. split; [reflexivity |].
  pose proof (execSql_no_db w' q ps Hdb) as Hrun. split.
  - by rewrite (query_run _ _ _ _ _ _ Hrun).
  - unfold mutate. run_task. rewrite Hrun.
    unfold save, save_with. run_task. by rewrite Hdb.
Qed.

End RepositoryProperties.


(** ** The repository on the small engine *)

Section OnToyEngine.
Import Values Formatter Eff Repository Toy.

(** C2 (the code departs from it).  With the database file absent,
    [start] returns normally although initialization failed: when the
    engine runtime cannot be started the repository it hands out holds no
    database at all, and when the schema is rejected by the engine it
    holds an empty database without schema; in both cases nothing was
    written and the change listener is registered.  Both revisions of
    the file behave so. *)
Theorem start_returns_after_failed_init (revision : Revision) :
  let no_runtime := empty_vault (mkFaults true false false false) in
  let after1 := start revision id toy_path toy_schema no_runtime in
  let after2 := start revision id toy_path "CREATE TABEL t" (empty_vault no_faults) in
  outcome after1 = Returned tt
  ∧ db (store after1) = None
  ∧ dbFile (store after1) = None
  ∧ last (trace (store after1)) = Some RegisterEvent
  ∧ outcome after2 = Returned tt
  ∧ db (store after2) = Some (mkInstance 0 [])
  ∧ dbFile (store after2) = None
  ∧ last (trace (store after2)) = Some RegisterEvent.
Proof. destruct revision; vm_compute; repeat split. Qed.

(** The sibling branch on the same engine: the file exists and is not a
    database; it is opened all the same, the schema statement fails on it,
    and [start] throws. *)
Example start_throws_on_corrupt_file (revision : Revision) :
  outcome (start revision id toy_path toy_schema
             (mkWorld None false false toy_path toy_schema true
                      (Some [255%N]) no_faults 0 []))
  = Thrown (JsError
      "Db file found at increading/ir-user-data.sqlite, but failed to load").
Proof. reflexivity. Qed.

(** The self-write theorem on a save of the rows [1, 2]. *)
Lemma self_write_suppression_witness :
  let file := mkFile toy_path false in
  let w1 := store (save SaveSwallows false (ready [1%N; 2%N] false)) in
  let w3 := store (handleFileChange file (store (handleFileChange file w1))) in
  isSaving w1 = true
  ∧ handleFileChange file w1 = (Returned tt, set_isSaving false w1)
  ∧ db w3 = Some (mkInstance 1 [1%N; 2%N])
  ∧ db w3 ≠ db w1.
Proof.
  intros file w1 w3.
  destruct (self_write_suppression SaveSwallows (ready [1%N; 2%N] false)
              false w1 file eq_refl eq_refl eq_refl)
    as (Hguard & Hfirst & _ & _ & _ & _ & Hreload).
  destruct (Hreload [1%N; 2%N] [1%N; 2%N]
              (or_introl eq_refl) eq_refl eq_refl eq_refl)
    as (Hdb & _ & Hnew).
  split; [exact Hguard |]. split; [exact Hfirst |]. split; [exact Hdb |].
  apply Hnew. intros inst [= <-]. simpl. lia.
Defined.

(** The theorem on a statement the engine rejects, and on a SELECT
    from the empty table. *)
Lemma execSql_swallows_engine_errors_witness :
  outcome (query "SELEC" [] (ready [1%N] false)) = Returned (Some [])
  ∧ outcome (query "SELECT n FROM t" [] (ready [] false)) = Returned (Some []).
Proof.
  split.
  - exact (proj1 (proj2
      (proj1 (proj2 (execSql_swallows_engine_errors SaveSwallows
                       (ready [1%N] false) "SELEC" []))
         (mkInstance 0 [1%N]) (JsError "syntax error") [1%N]
         eq_refl eq_refl))).
  - exact (proj1 (proj2
      (proj2 (proj2 (execSql_swallows_engine_errors SaveSwallows
                       (ready [] false) "SELECT n FROM t" []))
         (mkInstance 0 []) [] eq_refl eq_refl))).
Defined.

(** The theorem on an INSERT, which is run and saved; on a mutation the
    engine rejects, saved all the same; on a SELECT through [query], which
    is run and not saved; and on a mutation through a repository without
    database. *)
Lemma mutate_saves_query_does_not_witness :
  (∃ w', mutate SaveSwallows "INSERT INTO t VALUES ($1)" [PNumber 5]
                (ready [1%N] false) = (Returned [[]], w')
         ∧ dbFile w' = Some [1%N; 5%N])
  ∧ (∃ w', mutate SaveSwallows "INSERT INTO t" [PNumber 5]
                  (ready [1%N] false) = (Returned [[]], w')
           ∧ dbFile w' = Some [1%N])
  ∧ outcome (query "SELECT n FROM t" [] (ready [1%N] false))
    = Returned (Some (toy_objects [1%Z]))
  ∧ (let w' := store (query "INSERT INTO t VALUES ($1)" [PNumber 5]
                        (ready [1%N] false)) in
     db w' = Some (mkInstance 0 [1%N; 5%N]) ∧ dbFile w' = Some [1%N])
  ∧ outcome (mutate SaveSwallows "INSERT INTO t VALUES ($1)" [PNumber 5]
               (empty_vault no_faults))
    = Thrown not_initialized.
Proof.
  split; [| split; [| split; [| split]]].
  - destruct (proj1 (proj2 (mutate_saves_query_does_not SaveSwallows
                              (ready [1%N] false)
                              "INSERT INTO t VALUES ($1)" [PNumber 5]))
                (@mkInstance toy_engine 0 [1%N]) (Returned []) [1%N; 5%N]
                eq_refl eq_refl) as (_ & Hsaved & _).
    destruct (Hsaved eq_refl (or_introl eq_refl))
      as (w' & earlier & Hmutate & Hfile & _).
    exists w'. split; [exact Hmutate | exact Hfile].
  - destruct (proj1 (proj2 (mutate_saves_query_does_not SaveSwallows
                              (ready [1%N] false) "INSERT INTO t" [PNumber 5]))
                (@mkInstance toy_engine 0 [1%N])
                (Thrown (JsError "syntax error")) [1%N]
                eq_refl eq_refl) as (_ & Hsaved & _).
    destruct (Hsaved eq_refl (or_introl eq_refl))
      as (w' & earlier & Hmutate & Hfile & _).
    exists w'. split; [exact Hmutate | exact Hfile].
  - exact (proj1 (proj2 (proj2 (proj2
      (proj1 (proj2 (mutate_saves_query_does_not SaveSwallows
                       (ready [1%N] false) "SELECT n FROM t" []))
         (@mkInstance toy_engine 0 [1%N])
         (Returned [mkResult ["n"] [[SqlNumber 1]]]) [1%N]
         eq_refl eq_refl))))).
  - split.
    + exact (proj2 (proj2 (proj2 (proj2
        (proj1 (proj2 (mutate_saves_query_does_not SaveSwallows
                         (ready [1%N] false)
                         "INSERT INTO t VALUES ($1)" [PNumber 5]))
           (@mkInstance toy_engine 0 [1%N]) (Returned []) [1%N; 5%N]
           eq_refl eq_refl))))).
    + exact (proj1 (proj2 (proj2
        (proj2 (proj2 (mutate_saves_query_does_not SaveSwallows
                         (ready [1%N] false)
                         "INSERT INTO t VALUES ($1)" [PNumber 5])))))).
  - exact (proj1 (mutate_saves_query_does_not SaveSwallows
                    (empty_vault no_faults)
                    "INSERT INTO t VALUES ($1)" [PNumber 5]) eq_refl).
Defined.

(** [query] does not return the rows of the first statement on a text
    whose first statement returns no row: the INSERT contributes
    no entry to the engine's result list, and [query] returns the rows of
    the SELECT that follows it instead of the empty array. *)
Lemma query_first_statement_counterexample :
  let w := ready [1%N] false in
  let q := "INSERT INTO t VALUES (7); SELECT n FROM t" in
  statement_results (inst_db (mkInstance 0 [1%N])) q (coerceParams [])
  = [None; Some (mkResult ["n"] [[SqlNumber 1]; [SqlNumber 7]])]
  ∧ first_statement_rows
      (statement_results (inst_db (mkInstance 0 [1%N])) q (coerceParams []))
    = Returned []
  ∧ outcome (query q [] w) = Returned (Some (toy_objects [1%Z; 7%Z]))
  ∧ ¬ (∀ rows,
         first_statement_rows
           (statement_results (inst_db (mkInstance 0 [1%N])) q (coerceParams []))
         = Returned rows →
         outcome (query q [] w) = Returned (Some rows)).
Proof.
  intros w q. split; [reflexivity |]. split; [reflexivity |].
  split; [reflexivity |].
  intros Hfirst. specialize (Hfirst [] eq_refl). discriminate Hfirst.
Qed.

(** The theorem on a text whose first statement returns no row, on two
    statements that both return rows, and on a statement without result. *)
Lemma query_first_result_only_witness :
  outcome (query "INSERT INTO t VALUES (7); SELECT n FROM t" []
             (ready [1%N] false))
  = Returned (Some (toy_objects [1%Z; 7%Z]))
  ∧ outcome (query "SELECT n FROM t; SELECT n FROM t" [] (ready [1%N] false))
    = Returned (Some (toy_objects [1%Z]))
  ∧ outcome (query toy_schema [] (ready [1%N] false)) = Returned (Some []).
Proof.
  split; [| split].
  - exact (proj1 (proj2
      (proj1 (proj2 (proj2 (query_first_result_only
                              (ready [1%N] false)
                              "INSERT INTO t VALUES (7); SELECT n FROM t" [])))
         (@mkInstance toy_engine 0 [1%N])
         [mkResult ["n"] [[SqlNumber 1]; [SqlNumber 7]]] [1%N; 7%N]
         [toy_objects [1%Z; 7%Z]] eq_refl eq_refl eq_refl))).
  - exact (proj1 (proj2
      (proj1 (proj2 (proj2 (query_first_result_only
                              (ready [1%N] false)
                              "SELECT n FROM t; SELECT n FROM t" [])))
         (@mkInstance toy_engine 0 [1%N])
         [mkResult ["n"] [[SqlNumber 1]]; mkResult ["n"] [[SqlNumber 1]]] [1%N]
         [toy_objects [1%Z]; toy_objects [1%Z]] eq_refl eq_refl eq_refl))).
  - exact (proj2 (proj2 (proj2 (query_first_result_only
                                  (ready [1%N] false) toy_schema [])))
                 eq_refl).
Defined.

End OnToyEngine.

(** * Further properties *)

(** ** Result formatter: rows that do not match the columns *)

Section FormatterEdges.
Import Values Eff Formatter.
Context {R : JsRuntime}.

Implicit Types (cols : list string) (row : list SqlValue) (acc obj : Row).

(** An assignment changes the own properties at its key only. *)
Lemma set_property_other acc key v obj k :
  set_property acc key v = Returned obj → k ≠ key →
  own obj !! k = own acc !! k.
Proof.
  unfold set_property. intros Hset Hk.
  assert (Hdefine : own (define_own acc key v) !! k = own acc !! k)
    by (simpl; by rewrite lookup_insert_ne).
  assert (Hsetter : own (proto_setter acc v) !! k = own acc !! k)
    by (by destruct v).
  destruct (own acc !! key); [by injection Hset as <- |].
  destruct (prototype acc) as [| | bytes].
  - case_decide; by injection Hset as <-.
  - by injection Hset as <-.
  - case_decide; [by injection Hset as <- |].
    destruct (typed_array_key bytes key); [| | discriminate];
      by injection Hset as <-.
Qed.

(** An assignment to the key "undefined" creates or overwrites the own
    property, whatever the prototype. *)
Lemma set_property_undefined acc v :
  set_property acc "undefined" v = Returned (define_own acc "undefined" v).
Proof.
  unfold set_property. destruct (own acc !! "undefined"); [reflexivity |].
  destruct (prototype acc) as [| | bytes]; [reflexivity | reflexivity |].
  rewrite decide_False by discriminate.
  by rewrite typed_array_key_undefined.
Qed.

(** Unless the prototype is a typed array, an assignment returns; the
    prototype becomes a typed array only when a BLOB is assigned to
    [__proto__]. *)
Lemma set_property_plain acc key v :
  (∀ bytes, prototype acc ≠ TypedArrayPrototype bytes) →
  (key = "__proto__" → ∀ bytes, v ≠ SqlBlob bytes) →
  ∃ obj, set_property acc key v = Returned obj
         ∧ ∀ bytes, prototype obj ≠ TypedArrayPrototype bytes.
Proof.
  intros Hplain Hblob. unfold set_property.
  assert (Hsetter : key = "__proto__" →
            ∀ bytes, prototype (proto_setter acc v) ≠ TypedArrayPrototype bytes).
  { intros Hkey bytes. specialize (Hblob Hkey). destruct v; simpl; try done.
    by destruct (Hblob bytes0). }
  destruct (own acc !! key); [by eexists |].
  destruct (prototype acc) as [| | bytes] eqn:Hproto.
  - case_decide; eexists; (split; [reflexivity |]); [by apply Hsetter |].
    simpl. by rewrite Hproto.
  - eexists. split; [reflexivity |]. simpl. by rewrite Hproto.
  - by destruct (Hplain bytes).
Qed.

(** The own keys of a formatted row are keys some cell was assigned to. *)
Lemma reduce_from_keys cols row i acc obj k :
  reduce_from (assign_cell cols) row i acc = Returned obj →
  is_Some (own obj !! k) →
  is_Some (own acc !! k) ∨ ∃ j, j < length row ∧ column_key cols (i + j) = k.
Proof.
  revert i acc. induction row as [| cell row IH]; intros i acc Hrun Hk;
    simpl in *.
  - injection Hrun as <-. by left.
  - destruct (assign_cell cols acc cell i) as [acc' |] eqn:Hset; [| discriminate].
    destruct (IH _ _ Hrun Hk) as [Hacc | (j & Hj & Hkey)].
    + destruct (decide (k = column_key cols i)) as [-> | Hne].
      * right. exists 0. split; [lia |]. by rewrite Nat.add_0_r.
      * left. by rewrite <- (set_property_other _ _ _ _ _ Hset Hne).
    + right. exists (S j). split; [lia |].
      by replace (i + S j) with (S i + j) by lia.
Qed.

(** A key no cell is assigned to is as it was. *)
Lemma reduce_from_untouched cols row i acc obj c :
  reduce_from (assign_cell cols) row i acc = Returned obj →
  (∀ j, j < length row → column_key cols (i + j) ≠ c) →
  own obj !! c = own acc !! c.
Proof.
  revert i acc. induction row as [| cell row IH]; intros i acc Hrun Hfree;
    simpl in *.
  - by injection Hrun as <-.
  - destruct (assign_cell cols acc cell i) as [acc' |] eqn:Hset; [| discriminate].
    rewrite (IH _ _ Hrun).
    + apply (set_property_other _ _ _ _ _ Hset).
      specialize (Hfree 0). rewrite Nat.add_0_r in Hfree.
      intros ->. apply Hfree; [lia | reflexivity].
    + intros j Hj. replace (S i + j) with (i + S j) by lia.
      apply Hfree. lia.
Qed.

(** The fold over a row followed by one more cell. *)
Lemma reduce_from_snoc cols row cell i acc :
  reduce_from (assign_cell cols) (row ++ [cell]) i acc
  = match reduce_from (assign_cell cols) row i acc with
    | Returned acc' => assign_cell cols acc' cell (i + length row)
    | Thrown e => Thrown e
    end.
Proof.
  revert i acc. induction row as [| x row IH]; intros i acc; simpl.
  - rewrite Nat.add_0_r. by destruct (assign_cell cols acc cell i).
  - destruct (assign_cell cols acc x i) as [acc' |]; [| reflexivity].
    rewrite IH. by replace (S i + length row) with (i + S (length row)) by lia.
Qed.

(** A row none of whose BLOB cells is assigned to [__proto__] formats
    without exception. *)
Lemma reduce_from_plain cols row i acc :
  (∀ bytes, prototype acc ≠ TypedArrayPrototype bytes) →
  (∀ j bytes, column_key cols (i + j) = "__proto__" →
              row !! j ≠ Some (SqlBlob bytes)) →
  ∃ obj, reduce_from (assign_cell cols) row i acc = Returned obj.
Proof.
  revert i acc. induction row as [| cell row IH]; intros i acc Hplain Hblob;
    simpl.
  - by eexists.
  - destruct (set_property_plain acc (column_key cols i) cell Hplain)
      as (acc' & Hset & Hplain').
    { intros Hkey bytes ->. apply (Hblob 0 bytes); [| reflexivity].
      by rewrite Nat.add_0_r. }
    unfold assign_cell at 1. rewrite Hset. apply IH; [exact Hplain' |].
    intros j bytes Hkey. apply (Hblob (S j) bytes).
    by replace (i + S j) with (S i + j) by lia.
Qed.

(** X12. When a row formats to an object, the object has no own key
    besides the column names and, for cells past the last column, the key
    "undefined".  A column for which the row has no cell is absent from the
    object (it reads [undefined], not [null]).  When the row has more cells
    than there are columns, the surplus cells are all assigned to the key
    "undefined", which ends up holding the last cell of the row.  A row
    formats to an object unless a BLOB cell is assigned to [__proto__]. *)
Theorem format_row_mismatched_lengths cols row :
  (∀ obj, format_row cols row = Returned obj →
     (∀ k, is_Some (own obj !! k) → k ∈ cols ∨ k = "undefined")
     ∧ (∀ c, (∀ j, j < length row → column_key cols j ≠ c) →
          own obj !! c = None)
     ∧ (∀ cell, length cols < length row → last row = Some cell →
          own obj !! "undefined" = Some cell))
  ∧ ((∀ j bytes, column_key cols j = "__proto__" →
                 row !! j ≠ Some (SqlBlob bytes)) →
     ∃ obj, format_row cols row = Returned obj).
Proof.
  unfold format_row. split.
  - intros obj Hrun. split; [| split].
    + intros k Hk.
      apply (reduce_from_keys _ _ _ _ _ _ Hrun) in Hk as [Hempty | (j & Hj & Hkey)].
      * simpl in Hempty. rewrite lookup_empty in Hempty. by destruct Hempty.
      * simpl in Hkey. unfold column_key in Hkey.
        destruct (cols !! j) as [c |] eqn:Hc; subst k; [left | by right].
        apply list_elem_of_lookup. eauto.
    + intros c Hfree. rewrite (reduce_from_untouched _ _ _ _ _ _ Hrun).
      * apply lookup_empty.
      * intros j Hj. simpl. by apply Hfree.
    + intros cell Hlen Hlast.
      destruct row as [| x row _] using rev_ind; [discriminate |].
      rewrite last_snoc in Hlast. injection Hlast as ->.
      rewrite reduce_from_snoc in Hrun.
      destruct (reduce_from (assign_cell cols) row 0 empty_object) as [acc |];
        [| discriminate].
      unfold assign_cell, column_key in Hrun.
      rewrite lookup_ge_None_2 in Hrun
        by (rewrite length_app in Hlen; simpl in *; lia).
      rewrite set_property_undefined in Hrun. injection Hrun as <-.
      simpl. apply lookup_insert_eq.
  - intros Hblob. apply reduce_from_plain; [done |].
    intros j bytes. simpl. apply Hblob.
Qed.

End FormatterEdges.

(** ** Condition builder: chains of any length *)

Section BuilderChains.
Import Values Eff Builder.

Lemma follow_run cb link h l old :
  comb_conditions cb = Some l →
  condition_arrays h !! l = Some old →
  let condition :=
    condition_text (link_column link) (link_comparator link)
                   (length (read_params (comb_params cb) h) + 1) in
  ∃ h',
    follow cb link h = (Returned (mkCombinator (comb_params cb) (Some l)), h')
    ∧ read_params (comb_params cb) h'
      = read_params (comb_params cb) h ++ [link_value link]
    ∧ condition_arrays h' !! l
      = Some (mkConditions (leading old)
                (chained old ++ [(link_conjunction link, condition)])).
Proof.
  intros Hl Hold condition. subst condition.
  unfold follow, link_conjunction, createComparatorCondition, and_, or_,
    createConditions, createCondition, bind, get, ret, push_condition,
    push_param, modify.
  destruct link as [[] column comparator value]; simpl; rewrite Hl; simpl;
    (eexists; split; [reflexivity |]; split;
     [ unfold read_params; simpl; by rewrite lookup_insert_eq
     | simpl; by rewrite lookup_alter_eq, Hold ]).
Qed.

Lemma chain_from_run links : ∀ cb h l old,
  comb_conditions cb = Some l →
  condition_arrays h !! l = Some old →
  let n := length (read_params (comb_params cb) h) in
  ∃ h',
    chain_from cb links h
    = (Returned (mkCombinator (comb_params cb) (Some l)), h')
    ∧ read_params (comb_params cb) h'
      = read_params (comb_params cb) h ++ map link_value links
    ∧ condition_arrays h' !! l
      = Some (mkConditions (leading old)
                (chained old
                 ++ imap (λ i link,
                            (link_conjunction link,
                             condition_text (link_column link)
                               (link_comparator link) (n + 1 + i)))
                         links)).
Proof.
  induction links as [| link links IH]; intros cb h l old Hl Hold n; subst n.
  - exists h. simpl. rewrite !app_nil_r. destruct cb as [p c]. simpl in *.
    subst c. destruct old. by repeat split.
  - destruct (follow_run cb link h l old Hl Hold) as (h1 & Hrun & Hps & Hcs).
    destruct (IH (mkCombinator (comb_params cb) (Some l)) h1 l _ eq_refl Hcs)
      as (h2 & Hrest & Hps2 & Hcs2).
    simpl in Hrest, Hps2, Hcs2.
    exists h2. simpl. unfold bind. rewrite Hrun. split; [exact Hrest |]. split.
    + rewrite Hps2, Hps. by rewrite <- app_assoc.
    + rewrite Hcs2. simpl. rewrite <- app_assoc. simpl.
      rewrite Nat.add_0_r. do 4 f_equal.
      apply imap_ext. intros i link' _. simpl.
      rewrite Hps, length_app. simpl. do 2 f_equal. lia.
Qed.

(** X13. A WHERE condition followed by any number of [and] / [or]
    links always builds: the parameter array gains the compare values in
    call order, and the condition array holds the leading condition and
    one entry per link, in call order, tagged AND or OR as called, the
    placeholders numbered consecutively from the length the parameter
    array had plus one. *)
Theorem where_chain_numbering params column comparator value links h :
  let n := length (read_params params h) in
  ∃ cb h',
    where_chain params column comparator value links h = (Returned cb, h')
    ∧ read_params params h'
      = read_params params h ++ value :: map link_value links
    ∧ conditions_of cb h'
      = Some (mkConditions
                (condition_text column comparator (n + 1))
                (imap (λ i link,
                         (link_conjunction link,
                          condition_text (link_column link)
                            (link_comparator link) (n + 2 + i)))
                      links)).
Proof.
  intros n. subst n.
  set (h1 := store (createComparatorCondition (factory_where params column)
                      comparator value h)).
  assert (Hfirst :
    createComparatorCondition (factory_where params column) comparator value h
    = (Returned (mkCombinator params (Some (next_loc h))), h1)) by reflexivity.
  assert (Hps1 : read_params params h1 = read_params params h ++ [value]).
  { unfold read_params at 1. simpl. by rewrite lookup_insert_eq. }
  assert (Hcs1 : condition_arrays h1 !! next_loc h
                 = Some (mkConditions
                           (condition_text column comparator
                              (length (read_params params h) + 1)) [])).
  { simpl. by rewrite lookup_insert_eq. }
  destruct (chain_from_run links (mkCombinator params (Some (next_loc h)))
              h1 _ _ eq_refl Hcs1) as (h2 & Hrun & Hps2 & Hcs2).
  simpl in Hrun, Hps2, Hcs2.
  exists (mkCombinator params (Some (next_loc h))), h2.
  unfold where_chain, bind. rewrite Hfirst. split; [exact Hrun |]. split.
  - rewrite Hps2, Hps1. by rewrite <- app_assoc.
  - unfold conditions_of. simpl. rewrite Hcs2. simpl. do 2 f_equal.
    apply imap_ext. intros i link _. simpl.
    rewrite Hps1, length_app. simpl. do 2 f_equal. lia.
Qed.

(** X14. Two [where] calls on the same factory object both build: the
    duplicate-WHERE error is not raised, because each call hands
    [createCondition] the factory's own [null].  They share the parameter
    array, so the placeholders are numbered across both, and each call
    ends with a condition array of its own that holds only its condition. *)
Theorem where_twice_on_factory_builds params c1 v1 c2 v2 h :
  let n := length (read_params params h) in
  ∃ cb1 cb2 h',
    where_eq_where_eq params c1 v1 c2 v2 h = (Returned (cb1, cb2), h')
    ∧ read_params params h' = read_params params h ++ [v1; v2]
    ∧ conditions_of cb1 h' = Some (mkConditions (condition_text c1 CmpEq (n + 1)) [])
    ∧ conditions_of cb2 h' = Some (mkConditions (condition_text c2 CmpEq (n + 2)) [])
    ∧ comb_conditions cb1 ≠ comb_conditions cb2.
Proof.
  intros n. subst n.
  unfold where_eq_where_eq, factory_where, eq, createComparatorCondition,
    createConditions, createCondition, bind, get, ret, new_conditions,
    push_param, modify; simpl.
  eexists _, _, _. split; [reflexivity |].
  unfold conditions_of, read_params; simpl.
  rewrite !lookup_insert_eq; simpl.
  rewrite lookup_insert_ne by lia. rewrite lookup_insert_eq.
  rewrite <- app_assoc, length_app. simpl.
  replace (length (default [] (param_arrays h !! params)) + 1 + 1)
    with (length (default [] (param_arrays h !! params)) + 2) by lia.
  repeat split. intros [= Heq]. lia.
Qed.

(** X15. A comparator call touches only what it was given: whether it
    returns or throws, every other parameter array and every condition
    array other than its own is as before, and no array disappears. *)
Theorem createCondition_frame column conjunction params conditions
    comparator compareValue h :
  let h' := store (createCondition column conjunction params conditions
                     comparator compareValue h) in
  (∀ other, other ≠ params → read_params other h' = read_params other h)
  ∧ (∀ l, conditions ≠ Some l → l ≠ next_loc h →
       condition_arrays h' !! l = condition_arrays h !! l)
  ∧ (∀ l, is_Some (condition_arrays h !! l) → l ≠ next_loc h →
       is_Some (condition_arrays h' !! l))
  ∧ (next_loc h ≤ next_loc h')%nat.
Proof.
  unfold createCondition, bind, get, ret, throw, new_conditions,
    push_condition, push_param, modify, store, read_params.
  destruct conjunction, conditions as [own |]; simpl; repeat split;
    try (intros other Hother; by rewrite lookup_insert_ne);
    try (intros l Hl Hnew; first
           [ by rewrite lookup_insert_ne
           | rewrite lookup_alter_ne; [reflexivity | congruence]
           | reflexivity ]);
    try (intros l Hsome Hnew; first
           [ by rewrite lookup_insert_ne
           | rewrite lookup_alter; case_decide; subst;
             [ destruct Hsome as [c ->]; simpl; eauto | exact Hsome ]
           | exact Hsome ]);
    try lia.
Qed.

(** The theorem on a call made while a second query is being built. *)
Lemma createCondition_frame_witness :
  let h := mkHeap {[0 := [PString "a.md"]; 5 := [PNumber 3]]}
                  {[1 := mkConditions "reference = $1" [];
                    6 := mkConditions "due >= $1" []]} 7 in
  let h' := store (createCondition "dismissed" AND 0 (Some 1) CmpEq
                     (PBoolean false) h) in
  read_params 5 h' = [PNumber 3]
  ∧ condition_arrays h' !! 6 = Some (mkConditions "due >= $1" []).
Proof.
  intros h h'.
  destruct (createCondition_frame "dismissed" AND 0 (Some 1) CmpEq
              (PBoolean false) h) as (Hparams & Hconds & _).
  split.
  - exact (Hparams 5 ltac:(discriminate)).
  - exact (Hconds 6 ltac:(discriminate) ltac:(discriminate)).
Defined.

End BuilderChains.

(** ** The further properties on the small engine *)

Section FurtherOnToyEngine.
Import Values Formatter Eff Repository Toy.

(** A notification for another file and one of a deletion, then the
    echo of the save. *)
Lemma foreign_notifications_keep_guard_witness :
  notify_all [mkFile "notes/a.md" false; mkFile toy_path true;
              mkFile toy_path false] (ready [1%N] true)
  = (Returned tt, ready [1%N] false).
Proof.
  assert (Hforeign :
    Forall (λ file, path file ≠ dbFilePath (ready [1%N] true)
                    ∨ deleted file = true)
           [mkFile "notes/a.md" false; mkFile toy_path true]).
  { apply Forall_cons. split; [left; discriminate |].
    apply Forall_cons. split; [by right | apply Forall_nil_2]. }
  exact (proj2 (foreign_notifications_keep_guard (ready [1%N] true)
                  [mkFile "notes/a.md" false; mkFile toy_path true]
                  (mkFile toy_path false) Hforeign
                  eq_refl eq_refl eq_refl)).
Defined.

(** A reload after the file has disappeared. *)
Lemma reloadDb_failure_keeps_database_witness :
  let w := toy_world (Some [1%N]) true None no_faults in
  ∃ w', reloadDb w = (Returned None, w')
        ∧ db w' = Some (@mkInstance toy_engine 0 [1%N])
        ∧ handleFileChange (mkFile toy_path false) w = (Returned tt, w').
Proof.
  intros w.
  destruct (reloadDb_failure_keeps_database w)
    as (w' & Hrun & Hdb & _ & _ & _ & _ & Hhandler).
  { right. right. reflexivity. }
  exists w'. split; [exact Hrun |]. split; [exact Hdb |].
  by apply Hhandler.
Defined.

(** A reload of the rows [7, 8] saved by another device. *)
Lemma reloadDb_reads_only_witness :
  let w := toy_world (Some [1%N]) true (Some [7%N; 8%N]) no_faults in
  db (store (reloadDb w)) = Some (@mkInstance toy_engine 1 [7%N; 8%N])
  ∧ isSaving (store (reloadDb w)) = false.
Proof.
  intros w.
  destruct (reloadDb_reads_only w) as (_ & Hguard & _ & _ & _ & Hnew).
  destruct (Hnew (@mkInstance toy_engine 1 [7%N; 8%N]) eq_refl)
    as (bytes & content & _ & _ & _ & Hdb).
  split; [exact Hdb | exact Hguard].
Defined.

(** Startup on an empty vault. *)
Lemma start_fresh_initializes_witness :
  ∃ w',
    start SaveSwallows id toy_path toy_schema (empty_vault no_faults)
    = (Returned tt, w')
    ∧ db w' = Some (@mkInstance toy_engine 0 [])
    ∧ dbFile w' = Some []
    ∧ isSaving w' = true.
Proof.
  destruct (start_fresh_initializes SaveSwallows id (empty_vault no_faults)
              toy_path toy_schema [] [] eq_refl eq_refl eq_refl
              (or_intror eq_refl) eq_refl)
    as (w' & Hstart & Hdb & _ & Hfile & Hguard & _).
  exists w'. by repeat split.
Defined.

(** Startup on a vault holding the rows [1, 2]. *)
Lemma start_existing_loads_witness :
  ∃ w',
    start SaveRethrows id toy_path toy_schema
          (toy_world None true (Some [1%N; 2%N]) no_faults)
    = (Returned tt, w')
    ∧ db w' = Some (@mkInstance toy_engine 1 [1%N; 2%N])
    ∧ dbFile w' = Some [1%N; 2%N].
Proof.
  destruct (start_existing_loads SaveRethrows id
              (toy_world None true (Some [1%N; 2%N]) no_faults)
              toy_path toy_schema [1%N; 2%N] [1%N; 2%N] [] [1%N; 2%N]
              eq_refl eq_refl eq_refl eq_refl eq_refl eq_refl eq_refl)
    as (w' & Hstart & Hdb & Hfile & _).
  exists w'. by repeat split.
Defined.

(** Startup on a file that is not a database: it is opened, and the
    schema statement fails on it. *)
Lemma start_existing_load_failure_throws_witness :
  let after := start SaveSwallows id toy_path toy_schema
                 (toy_world None true (Some [255%N]) no_faults) in
  outcome after
  = Thrown (JsError
      "Db file found at increading/ir-user-data.sqlite, but failed to load")
  ∧ dbFile (store after) = Some [255%N].
Proof.
  intros after.
  destruct (start_existing_load_failure_throws SaveSwallows id
              (toy_world None true (Some [255%N]) no_faults)
              toy_path toy_schema [255%N] eq_refl eq_refl)
    as (Hthrown & Hfile & _).
  { right. right.
    by exists [255%N], (JsError "file is not a database"), [255%N]. }
  by split.
Defined.


(** The first save of an initialization while the host refuses to create
    the folder, in both revisions. *)
Lemma save_folder_rejection_by_revision_witness :
  let w := toy_world (Some []) false None (mkFaults false false false true) in
  outcome (save SaveSwallows true w) = Returned tt
  ∧ outcome (save SaveRethrows true w)
    = Thrown (JsError "createFolder rejected")
  ∧ dbFile (store (save SaveSwallows true w)) = None.
Proof.
  intros w.
  rewrite (save_folder_rejection_by_revision SaveSwallows w
             (@mkInstance toy_engine 0 []) eq_refl eq_refl eq_refl).
  rewrite (save_folder_rejection_by_revision SaveRethrows w
             (@mkInstance toy_engine 0 []) eq_refl eq_refl eq_refl).
  by repeat split.
Defined.

(** A save of the rows [1, 2] after the file has disappeared. *)
Lemma save_after_file_loss_replaces_database_witness :
  let w := toy_world (Some [1%N; 2%N]) true None no_faults in
  ∃ w',
    save SaveSwallows false w = (Returned tt, w')
    ∧ db w' = Some (@mkInstance toy_engine 1 [])
    ∧ dbFile w' = Some [1%N; 2%N].
Proof.
  intros w.
  destruct (save_after_file_loss_replaces_database SaveSwallows w
              (@mkInstance toy_engine 0 [1%N; 2%N]) [] [] eq_refl eq_refl eq_refl eq_refl
              (or_introl eq_refl) eq_refl)
    as (w' & Hsave & Hdb & Hfile & _).
  exists w'. by repeat split.
Defined.

(** A save of the rows [1, 2] followed by a reload. *)
Lemma save_then_reload_round_trip_witness :
  let w := ready [1%N; 2%N] false in
  ∃ w',
    bind (save SaveSwallows false) (λ _, reloadDb) w
    = (Returned (Some (@mkInstance toy_engine 1 [1%N; 2%N])), w')
    ∧ inst_db <$> db w' = inst_db <$> db w.
Proof.
  intros w.
  destruct (save_then_reload_round_trip SaveSwallows w
              (@mkInstance toy_engine 0 [1%N; 2%N]) [1%N; 2%N] eq_refl eq_refl
              (or_introl eq_refl) eq_refl eq_refl eq_refl)
    as (w' & Hrun & _ & _ & Hsame).
  exists w'. split; [exact Hrun | by apply Hsame].
Defined.

(** The theorem at columns [['a', 'b']]: the row [[1]] gives an object
    without ['b'], the row [[1, 2, 3, 4]] one whose key "undefined"
    holds 4. *)
Lemma format_row_mismatched_lengths_witness :
  (∃ obj, format_row ["a"; "b"] [SqlNumber 1] = Returned obj
          ∧ own obj !! "b" = None)
  ∧ (∃ obj, format_row ["a"; "b"]
              [SqlNumber 1; SqlNumber 2; SqlNumber 3; SqlNumber 4]
            = Returned obj
            ∧ own obj !! "undefined" = Some (SqlNumber 4)).
Proof.
  split.
  - destruct (proj2 (format_row_mismatched_lengths ["a"; "b"] [SqlNumber 1]))
      as [obj Hrun].
    { intros [| [| j]] bytes Hkey; discriminate. }
    exists obj. split; [exact Hrun |].
    apply (proj1 (proj2 (proj1 (format_row_mismatched_lengths
                                  ["a"; "b"] [SqlNumber 1]) obj Hrun)) "b").
    intros j Hj. simpl in Hj. assert (j = 0) as -> by lia. discriminate.
  - destruct (proj2 (format_row_mismatched_lengths ["a"; "b"]
               [SqlNumber 1; SqlNumber 2; SqlNumber 3; SqlNumber 4]))
      as [obj Hrun].
    { intros [| [| j]] bytes Hkey; discriminate. }
    exists obj. split; [exact Hrun |].
    apply (proj2 (proj2 (proj1 (format_row_mismatched_lengths ["a"; "b"]
             [SqlNumber 1; SqlNumber 2; SqlNumber 3; SqlNumber 4]) obj Hrun)));
      [simpl; lia | reflexivity].
Defined.

(** A BLOB in a column named [__proto__] becomes the prototype of the
    row object; a later column named [length] then resolves to the accessor
    without setter of typed arrays and the assignment throws, which
    [execSql] catches. *)
Example format_row_throws :
  format_row ["__proto__"; "length"] [SqlBlob [1%N]; SqlNumber 1]
  = Thrown not_assignable.
Proof. reflexivity. Qed.

(** Use of the repository that [start] returns when the engine runtime
    did not start. *)
Lemma start_without_runtime_then_use_witness :
  let repo := store (start SaveSwallows id toy_path toy_schema
                       (empty_vault (mkFaults true false false false))) in
  outcome (query "SELECT n FROM t" [] repo) = Returned (Some [])
  ∧ outcome (mutate SaveSwallows "INSERT INTO t VALUES ($1)" [PNumber 5] repo)
    = Thrown not_initialized.
Proof.
  intros repo.
  exact (proj2 (start_without_runtime_then_use SaveSwallows id
                  (empty_vault (mkFaults true false false false))
                  toy_path toy_schema "SELECT n FROM t"
                  [] eq_refl eq_refl)).
Defined.

End FurtherOnToyEngine.
